(** * winton-kafka-streams: topology builder and processor context

    A shallow embedding of [winton_kafka_streams/processor/topology.py]
    and [winton_kafka_streams/processor/_context.py].

    Python objects live in an explicit heap: a [ProcessorNode] is an
    entry of the heap and every reference to it (from the [nodes]
    dictionary, from the lists of a [Topology], from the [children]
    list of a parent) is its address, so that [children.append] on a
    node is seen through every alias.  Exceptions are values of
    [exception]; a method either returns or raises. *)

From stdpp Require Import base option list gmap strings fin_maps.

(** ** Exceptions and outcomes *)

(** The exceptions the two modules can raise.  [KafkaStreamsError]
    carries the positional arguments it was constructed with;
    [KeyError], [NameError] and [AttributeError] are the interpreter's
    own.  [InvalidReference] has no Python counterpart: it is the
    result of reading a heap address that holds no object, and
    [build_raises_kinds] shows that [build] never produces it. *)
Inductive exception : Type :=
  | KafkaStreamsError (args : list string)
  | KeyError (key : string)
  | NameError (var : string)
  | AttributeError (attr : string)
  | InvalidReference (l : nat).

Inductive outcome (A : Type) : Type :=
  | Return (a : A)
  | Raise (e : exception).
Arguments Return {A} a.
Arguments Raise {A} e.

Definition is_KafkaStreamsError (e : exception) : bool :=
  match e with KafkaStreamsError _ => true | _ => false end.

Definition returns {A} (o : outcome A) : Prop :=
  match o with Return _ => True | Raise _ => False end.

Definition raises_KafkaStreamsError {A} (o : outcome A) : Prop :=
  match o with Return _ => False | Raise e => is_KafkaStreamsError e = true end.

(** What a method call evaluates to when it returns: the receiver
    itself ([return self]) or [None] (the body falls off its end). *)
Inductive retval : Type := Self | PyNone.

(** ** Collaborators outside the two modules

    Processor classes, their instances, store factories and stores are
    defined elsewhere in the package; the builder only instantiates
    processor classes ([processor_type()]), calls store factories
    ([create()]) and reads a factory's [name] attribute.  A factory
    is any object that can be called, so it need not have that
    attribute: [factory_name] is [None] for one that has not. *)
Class Collaborators : Type := {
  ProcessorType : Type;
  ProcessorImpl : Type;
  instantiate : ProcessorType → ProcessorImpl;
  StoreFactory : Type;
  Store : Type;
  create : StoreFactory → Store;
  factory_name : StoreFactory → option string
}.

(** ** ProcessorNode *)

Module ProcessorNode.
Section Defs.
Context `{Collaborators}.

(** The processor object a node wraps: [SourceProcessor(topics)],
    [SinkProcessor(topic)] or an instance of a user class. *)
Inductive processor_obj : Type :=
  | SourceProcessor (topics : list string)
  | SinkProcessor (topic : string)
  | UserProcessor (p : ProcessorImpl).

(** The attributes of a node object.  [children] holds heap
    addresses.  [stores] is the attribute [Context.get_store] reads;
    [None] means the object has no such attribute. *)
Record t : Type := mk {
  name : string;
  processor : processor_obj;
  children : list nat;
  stores : option (gmap string Store)
}.

(** [ProcessorNode.__init__]: sets [name], [processor] and an empty
    [children]; it assigns no [stores]. *)
Definition __init__ (_name : string) (_processor : processor_obj) : t :=
  mk _name _processor [] None.

(** [node.children.append(c)] *)
Definition children_append (c : nat) (n : t) : t :=
  mk (name n) (processor n) (children n ++ [c]) (stores n).
End Defs.
End ProcessorNode.

(** ** Topology *)

Module Topology.
Section Defs.
Context `{Collaborators}.

Record t : Type := __init__ {
  nodes : gmap string nat;
  sources : list nat;
  processors : list nat;
  sinks : list nat;
  state_stores : gmap string Store
}.

(** In heap [h], the name [name] is mapped to the address [l] of
    the node object [n], whose own name is [name]. *)
Definition node_at (topo : t) (h : list ProcessorNode.t)
    (name : string) (l : nat) (n : ProcessorNode.t) : Prop :=
  nodes topo !! name = Some l ∧ h !! l = Some n ∧
  ProcessorNode.name n = name.

(** The edge from [parent] to [child]: both are nodes of the
    topology and the child's address is in the parent's [children]. *)
Definition edge (topo : t) (h : list ProcessorNode.t)
    (parent child : string) : Prop :=
  ∃ lp np lc nc,
    node_at topo h parent lp np ∧ node_at topo h child lc nc ∧
    lc ∈ ProcessorNode.children np.
End Defs.
End Topology.

(** ** TopologyBuilder *)

Module TopologyBuilder.
Section Defs.
Context `{Collaborators}.

(** A deferred construction instruction: the [functools.partial]
    object a registration appends, with the arguments it has bound.
    Calling it with the [nodes] dictionary is [call] below. *)
Inductive deferred : Type :=
  | build_source (name : string) (topics : list string)
  | build_processor (name : string) (processor_type : ProcessorType)
                    (parents : list string)
  | build_sink (name : string) (topic : string) (parents : list string).

Record t : Type := mk {
  topics : list string;
  _sources : list deferred;
  _processors : list deferred;
  _sinks : list deferred;
  _state_stores : gmap string StoreFactory
}.

(** [TopologyBuilder()] *)
Definition __init__ : t := mk [] [] [] [] ∅.

(** *** Registration methods

    A method takes the receiver's state and gives the outcome of the
    call together with the receiver's state afterwards. *)
Definition method : Type := t → outcome retval * t.

(** [state_store(store_name, store, *args)].  The message of the
    second error is built from [store.name] before the error is
    raised: on a factory without that attribute the read raises
    [AttributeError]. *)
Definition state_store (store_name : string) (store : option StoreFactory)
    (args : list string) : method := λ self,
  match store with
  | None => (Raise (KafkaStreamsError ["Store cannot be None"]), self)
  | Some f =>
      if decide (is_Some (_state_stores self !! store_name)) then
        match factory_name f with
        | Some n =>
            (Raise (KafkaStreamsError
               ["Store with name " +:+ n +:+ " already exists"]), self)
        | None => (Raise (AttributeError "name"), self)
        end
      else
        (Return PyNone,
         mk (topics self) (_sources self) (_processors self) (_sinks self)
            (<[store_name := f]> (_state_stores self)))
  end.

Definition source (name : string) (topics_ : list string) : method :=
  λ self,
  (Return Self,
   mk (topics self ++ topics_) (_sources self ++ [build_source name topics_])
      (_processors self) (_sinks self) (_state_stores self)).

Definition processor (name : string) (processor_type : ProcessorType)
    (parents : list string) : method := λ self,
  match parents with
  | [] =>
      (Raise (KafkaStreamsError
         ["Processor '%s' must have a minimum of 1 input"; name]), self)
  | _ :: _ =>
      (Return Self,
       mk (topics self) (_sources self)
          (_processors self ++ [build_processor name processor_type parents])
          (_sinks self) (_state_stores self))
  end.

Definition sink (name : string) (topic : string) (parents : list string)
    : method := λ self,
  (Return Self,
   mk (topics self) (_sources self) (_processors self)
      (_sinks self ++ [build_sink name topic parents]) (_state_stores self)).

(** *** The build phase

    [build] runs against the [nodes] dictionary it creates and the
    heap of node objects.  [M] threads both and stops at the first
    exception. *)
Record state : Type := mkState {
  nodes : gmap string nat;
  heap : list ProcessorNode.t
}.

Definition M (A : Type) : Type := state → outcome (A * state).

Definition ret {A} (a : A) : M A := λ σ, Return (a, σ).
Definition raise {A} (e : exception) : M A := λ _, Raise e.
Definition bind {A B} (m : M A) (k : A → M B) : M B := λ σ,
  match m σ with
  | Return (a, σ') => k a σ'
  | Raise e => Raise e
  end.

Local Notation "x <- m ;; k" := (bind m (λ x, k))
  (at level 100, m at next level, right associativity).
Local Notation "m ;;; k" := (bind m (λ _, k))
  (at level 100, right associativity).

(** [ProcessorNode(name, processor)]: a new object at a new address *)
Definition new_node (name : string) (p : ProcessorNode.processor_obj)
    : M nat := λ σ,
  Return (length (heap σ),
          mkState (nodes σ) (heap σ ++ [ProcessorNode.__init__ name p])).

(** [k in nodes] *)
Definition nodes_contains (k : string) : M bool := λ σ,
  Return (bool_decide (is_Some (nodes σ !! k)), σ).

(** [nodes[k] = l] *)
Definition nodes_setitem (k : string) (l : nat) : M unit := λ σ,
  Return (tt, mkState (<[k := l]> (nodes σ)) (heap σ)).

(** [nodes[k]] *)
Definition nodes_getitem (k : string) : M nat := λ σ,
  match nodes σ !! k with
  | Some l => Return (l, σ)
  | None => Raise (KeyError k)
  end.

(** [n.name] for the object at address [l] *)
Definition get_name (l : nat) : M string := λ σ,
  match heap σ !! l with
  | Some n => Return (ProcessorNode.name n, σ)
  | None => Raise (InvalidReference l)
  end.

(** [p.children.append(c)] for the object at address [l] *)
Definition append_child (l c : nat) : M unit := λ σ,
  match heap σ !! l with
  | Some n =>
      Return (tt, mkState (nodes σ)
                    (<[l := ProcessorNode.children_append c n]> (heap σ)))
  | None => Raise (InvalidReference l)
  end.

(** [list(f(x) for x in xs)] *)
Fixpoint list_comp {A B} (f : A → M B) (xs : list A) : M (list B) :=
  match xs with
  | [] => ret []
  | x :: xs' => y <- f x ;; ys <- list_comp f xs' ;; ret (y :: ys)
  end.

(** [any(p(x) for x in xs)]: stops at the first true *)
Fixpoint any {A} (p : A → M bool) (xs : list A) : M bool :=
  match xs with
  | [] => ret false
  | x :: xs' => b <- p x ;; if b : bool then ret true else any p xs'
  end.

(** [for x in xs: body(x)] *)
Fixpoint for_each {A} (body : A → M unit) (xs : list A) : M unit :=
  match xs with
  | [] => ret tt
  | x :: xs' => body x ;;; for_each body xs'
  end.

(** [_add_node(nodes, name, processor, inputs)], [processor] being
    the address of the node object.  The message of the third check
    evaluates [n.name for i in node_inputs], where [n] is not bound:
    reaching it with a non-empty [node_inputs] raises [NameError]. *)
Definition _add_node (name : string) (processor : nat)
    (inputs : list string) : M unit :=
  dup <- nodes_contains name ;;
  if dup : bool then
    raise (KafkaStreamsError
      ["A processor with the name '" +:+ name
         +:+ "' already added to this topology"])
  else
    nodes_setitem name processor ;;;
    node_inputs <- list_comp nodes_getitem inputs ;;
    self_input <- any (λ n, nm <- get_name n ;; ret (bool_decide (nm = name)))
                      node_inputs ;;
    if self_input : bool then
      raise (KafkaStreamsError ["A processor cannot have itself as an input"])
    else
      missing <- any (λ n, nm <- get_name n ;;
                           b <- nodes_contains nm ;; ret (negb b))
                     node_inputs ;;
      if missing : bool then raise (NameError "n")
      else
        for_each (λ i, p <- nodes_getitem i ;; append_child p processor)
                 inputs.

(** Calling a deferred instruction with the [nodes] dictionary *)
Definition call (d : deferred) : M nat :=
  match d with
  | build_source name topics_ =>
      source <- new_node name (ProcessorNode.SourceProcessor topics_) ;;
      _add_node name source [] ;;;
      ret source
  | build_processor name processor_type parents =>
      processor_node <-
        new_node name (ProcessorNode.UserProcessor (instantiate processor_type)) ;;
      _add_node name processor_node parents ;;;
      ret processor_node
  | build_sink name topic parents =>
      sink <- new_node name (ProcessorNode.SinkProcessor topic) ;;
      _add_node name sink parents ;;;
      ret sink
  end.

(** [build()]: the returned [Topology] together with the heap its
    addresses point into. *)
Definition build (self : t) : outcome (Topology.t * list ProcessorNode.t) :=
  match
    (sources <- list_comp call (_sources self) ;;
     processors <- list_comp call (_processors self) ;;
     sinks <- list_comp call (_sinks self) ;;
     ret (sources, processors, sinks)) (mkState ∅ [])
  with
  | Return ((sources, processors, sinks), σ) =>
      Return (Topology.__init__ (nodes σ) sources processors sinks
                (create <$> _state_stores self),
              heap σ)
  | Raise e => Raise e
  end.

(** *** Registration sequences *)

(** The registration call that appends the instruction [d] *)
Definition register (d : deferred) : method :=
  match d with
  | build_source name topics_ => source name topics_
  | build_processor name processor_type parents =>
      processor name processor_type parents
  | build_sink name topic parents => sink name topic parents
  end.

(** The calls [ds], one statement after the other on the same
    builder; the first exception ends the sequence. *)
Fixpoint run (ds : list deferred) (self : t) : outcome unit * t :=
  match ds with
  | [] => (Return tt, self)
  | d :: ds' =>
      match register d self with
      | (Return _, self') => run ds' self'
      | (Raise e, self') => (Raise e, self')
      end
  end.

Definition is_source (d : deferred) : bool :=
  match d with build_source _ _ => true | _ => false end.
Definition is_processor (d : deferred) : bool :=
  match d with build_processor _ _ _ => true | _ => false end.
Definition is_sink (d : deferred) : bool :=
  match d with build_sink _ _ _ => true | _ => false end.

(** The order in which [build] resolves the registrations [ds] *)
Definition resolution_order (ds : list deferred) : list deferred :=
  filter is_source ds ++ filter is_processor ds ++ filter is_sink ds.

(** The instructions of a builder in the order [build] calls them *)
Definition instructions (self : t) : list deferred :=
  _sources self ++ _processors self ++ _sinks self.

(** *** What an instruction declares *)

Definition dname (d : deferred) : string :=
  match d with
  | build_source name _ | build_processor name _ _ | build_sink name _ _ =>
      name
  end.

Definition dinputs (d : deferred) : list string :=
  match d with
  | build_source _ _ => []
  | build_processor _ _ parents | build_sink _ _ parents => parents
  end.

Definition dprocessor (d : deferred) : ProcessorNode.processor_obj :=
  match d with
  | build_source _ topics_ => ProcessorNode.SourceProcessor topics_
  | build_processor _ processor_type _ =>
      ProcessorNode.UserProcessor (instantiate processor_type)
  | build_sink _ topic _ => ProcessorNode.SinkProcessor topic
  end.

(** *** The outcome of [build] as a function of the instruction list

    [check known name inputs] is the exception [_add_node] raises for
    a node [name] with parents [inputs] when the names [known] are
    the keys of the [nodes] dictionary, [None] when it returns;
    [validate] runs it along a list of instructions.  [build_spec]
    proves that [build] follows it. *)
Fixpoint first_unknown (known : list string) (inputs : list string)
    : option string :=
  match inputs with
  | [] => None
  | i :: inputs' =>
      if decide (i ∈ known) then first_unknown known inputs' else Some i
  end.

Definition check (known : list string) (name : string)
    (inputs : list string) : option exception :=
  if decide (name ∈ known) then
    Some (KafkaStreamsError
      ["A processor with the name '" +:+ name
         +:+ "' already added to this topology"])
  else
    match first_unknown (name :: known) inputs with
    | Some i => Some (KeyError i)
    | None =>
        if decide (name ∈ inputs) then
          Some (KafkaStreamsError
            ["A processor cannot have itself as an input"])
        else None
    end.

Definition verdict (known : list string) (d : deferred) : option exception :=
  check known (dname d) (dinputs d).

Fixpoint validate (known : list string) (ds : list deferred)
    : option exception :=
  match ds with
  | [] => None
  | d :: ds' =>
      match verdict known d with
      | Some e => Some e
      | None => validate (known ++ [dname d]) ds'
      end
  end.

(** Every declared parent is the name of an earlier instruction *)
Definition parents_earlier (ds : list deferred) : Prop :=
  ∀ j d p, ds !! j = Some d → p ∈ dinputs d →
    ∃ i, i < j ∧ (dname <$> ds) !! i = Some p.

(** *** Invariant of the build phase *)

(** [n'] is the object [n] after zero or more [children.append] *)
Definition same_object (n n' : ProcessorNode.t) : Prop :=
  ProcessorNode.name n' = ProcessorNode.name n ∧
  ProcessorNode.processor n' = ProcessorNode.processor n ∧
  ProcessorNode.stores n' = ProcessorNode.stores n ∧
  ∀ c, c ∈ ProcessorNode.children n → c ∈ ProcessorNode.children n'.

Definition heap_grows (h h' : list ProcessorNode.t) : Prop :=
  length h' = length h ∧
  ∀ l n, h !! l = Some n → ∃ n', h' !! l = Some n' ∧ same_object n n'.

(** The state after the instructions [done] have been resolved: the
    [l]-th instruction made the object at address [l], the
    dictionary maps exactly the names of [done] to these addresses,
    and every declared edge is in the parent's [children]. *)
Record inv (done : list deferred) (σ : state) : Prop := mkInv {
  inv_len : length (heap σ) = length done;
  inv_obj : ∀ l d, done !! l = Some d →
    ∃ n, heap σ !! l = Some n ∧
         ProcessorNode.name n = dname d ∧
         ProcessorNode.processor n = dprocessor d ∧
         ProcessorNode.stores n = None;
  inv_key : ∀ k l, nodes σ !! k = Some l ↔ (dname <$> done) !! l = Some k;
  inv_edge : ∀ j d p, done !! j = Some d → p ∈ dinputs d →
    ∃ lp np, nodes σ !! p = Some lp ∧ heap σ !! lp = Some np ∧
             j ∈ ProcessorNode.children np
}.

(** *** What a sequence of registrations leaves in the builder *)

(** The call registering [d] returns: [processor] has a parent. *)
Definition accepted (d : deferred) : bool :=
  match d with build_processor _ _ [] => false | _ => true end.

(** The topics a registration adds to [self.topics] *)
Definition source_topics (d : deferred) : list string :=
  match d with build_source _ topics_ => topics_ | _ => [] end.

(** The builder [self] with the registrations [ds] appended, each to
    the list of its kind, and the topics of the sources accumulated *)
Definition registered (ds : list deferred) (self : t) : t :=
  mk (topics self ++ ds ≫= source_topics)
     (_sources self ++ filter is_source ds)
     (_processors self ++ filter is_processor ds)
     (_sinks self ++ filter is_sink ds)
     (_state_stores self).

(** *** The children lists of a built topology *)

(** How often [name] is listed among [inputs] *)
Definition occurrences (name : string) (inputs : list string) : nat :=
  length (filter (λ i, i = name) inputs).

(** The children the instructions [ds], made at the addresses [k],
    [k+1], ..., append to the node [name]: the address of every
    instruction that lists [name] as a parent, once per listing. *)
Fixpoint children_from (k : nat) (ds : list deferred) (name : string)
    : list nat :=
  match ds with
  | [] => []
  | d :: ds' =>
      replicate (occurrences name (dinputs d)) k ++ children_from (S k) ds' name
  end.

(** Every object made for [done] has exactly these children. *)
Definition children_exact (done : list deferred) (σ : state) : Prop :=
  ∀ l d, done !! l = Some d →
    ∃ n, heap σ !! l = Some n ∧
         ProcessorNode.children n = children_from 0 done (dname d).
End Defs.
End TopologyBuilder.

(** ** Context *)

Module Context.
Section Defs.
Context `{Collaborators}.

(** [currentNode] is [None] or the node object the context is bound
    to; [get_store] only reads it. *)
Record t : Type := mk { currentNode : option ProcessorNode.t }.

Definition __init__ : t := mk None.

Definition get_store (self : t) (name : string) : outcome Store :=
  match currentNode self with
  | None => Raise (KafkaStreamsError ["Access of state from unknown node"])
  | Some node =>
      match ProcessorNode.stores node with
      | None => Raise (AttributeError "stores")
      | Some stores =>
          match stores !! name with
          | None =>
              Raise (KafkaStreamsError
                ["Store " +:+ name +:+ " is not found in node "
                   +:+ ProcessorNode.name node])
          | Some s => Return s
          end
      end
  end.
End Defs.
End Context.

(** ** A concrete instance, for evaluation *)

Module Demo.
#[export] Instance collaborators : Collaborators := {|
  ProcessorType := string;
  ProcessorImpl := string;
  instantiate := λ c, c;
  StoreFactory := option string * nat;
  Store := nat;
  create := snd;
  factory_name := fst
|}.

(** The example topology: one source, one processor, one sink *)
Definition registrations : list TopologyBuilder.deferred :=
  [TopologyBuilder.build_source "src" ["topic-in"];
   TopologyBuilder.build_processor "proc" "MyProc" ["src"];
   TopologyBuilder.build_sink "snk" "topic-out" ["proc"]].

Definition builder : TopologyBuilder.t :=
  snd (TopologyBuilder.run registrations TopologyBuilder.__init__).

(** The same builder after [state_store("counts", factory, "proc")] *)
Definition builder_with_store : TopologyBuilder.t :=
  snd (TopologyBuilder.state_store "counts" (Some (Some "counts", 7)) ["proc"]
         builder).

(** A sink registered first, a processor that lists its parent twice,
    and their source registered last *)
Definition diamond : list TopologyBuilder.deferred :=
  [TopologyBuilder.build_sink "out" "topic-out" ["a"; "p"];
   TopologyBuilder.build_processor "p" "MyProc" ["a"; "a"];
   TopologyBuilder.build_source "a" ["t1"; "t2"]].

Definition diamond_builder : TopologyBuilder.t :=
  snd (TopologyBuilder.run diamond TopologyBuilder.__init__).

(** Builders on which [build] raises *)
Definition duplicate_builder : TopologyBuilder.t :=
  snd (TopologyBuilder.run
         [TopologyBuilder.build_source "a" ["t"];
          TopologyBuilder.build_sink "a" "t" ["a"]]
         TopologyBuilder.__init__).

Definition self_input_builder : TopologyBuilder.t :=
  snd (TopologyBuilder.run
         [TopologyBuilder.build_source "s" ["t"];
          TopologyBuilder.build_processor "p" "MyProc" ["s"; "p"]]
         TopologyBuilder.__init__).

Definition forward_builder : TopologyBuilder.t :=
  snd (TopologyBuilder.run
         [TopologyBuilder.build_processor "p" "MyProc" ["p"; "q"];
          TopologyBuilder.build_processor "q" "MyProc" ["p"]]
         TopologyBuilder.__init__).

(** A sequence whose second call raises *)
Definition rejected : list TopologyBuilder.deferred :=
  [TopologyBuilder.build_source "s" ["t"];
   TopologyBuilder.build_processor "p" "MyProc" [];
   TopologyBuilder.build_sink "k" "t" ["s"]].
End Demo.

(** * Facts about the build phase *)

Section BuildFacts.
Context `{Collaborators}.
Import TopologyBuilder.

Implicit Types (σ : state) (d : deferred) (ds done : list deferred).
Implicit Types (known inputs : list string) (h : list ProcessorNode.t).

(** ** The three shapes of instruction share one body *)

Lemma call_unfold d σ :
  call d σ =
  match _add_node (dname d) (length (heap σ)) (dinputs d)
          (mkState (nodes σ)
             (heap σ ++ [ProcessorNode.__init__ (dname d) (dprocessor d)]))
  with
  | Return (_, σ') => Return (length (heap σ), σ')
  | Raise e => Raise e
  end.
Proof.
  destruct d; cbn [call dname dinputs dprocessor]; unfold bind, new_node, ret;
    by repeat case_match.
Qed.

(** ** Sequencing *)

Lemma bind_Return {A B} (m : M A) (k : A → M B) σ a σ' :
  m σ = Return (a, σ') → bind m k σ = k a σ'.
Proof. unfold bind. by intros ->. Qed.

Lemma bind_Raise {A B} (m : M A) (k : A → M B) σ e :
  m σ = Raise e → bind m k σ = Raise e.
Proof. unfold bind. by intros ->. Qed.

(** ** Dictionary reads *)

Lemma nodes_getitem_Some σ k l :
  nodes σ !! k = Some l → nodes_getitem k σ = Return (l, σ).
Proof. unfold nodes_getitem. by intros ->. Qed.

Lemma nodes_getitem_None σ k :
  nodes σ !! k = None → nodes_getitem k σ = Raise (KeyError k).
Proof. unfold nodes_getitem. by intros ->. Qed.

Lemma getitems_spec σ known inputs :
  (∀ i, i ∈ known ↔ is_Some (nodes σ !! i)) →
  match first_unknown known inputs with
  | Some i => list_comp nodes_getitem inputs σ = Raise (KeyError i)
  | None =>
      ∃ locs, list_comp nodes_getitem inputs σ = Return (locs, σ) ∧
              Forall2 (λ i l, nodes σ !! i = Some l) inputs locs
  end.
Proof.
  intros Hknown.
  induction inputs as [|i inputs IH]; cbn [first_unknown list_comp].
  { exists []. by split. }
  destruct (decide (i ∈ known)) as [Hi|Hi].
  - apply Hknown in Hi as [l Hl].
    rewrite (bind_Return _ _ _ _ _ (nodes_getitem_Some _ _ _ Hl)).
    destruct (first_unknown known inputs) as [j|].
    + by rewrite (bind_Raise _ _ _ _ IH).
    + destruct IH as (locs & Hrun & Hlocs). exists (l :: locs).
      rewrite (bind_Return _ _ _ _ _ Hrun). split; [done | by constructor].
  - apply bind_Raise, nodes_getitem_None.
    destruct (nodes σ !! i) as [l|] eqn:Hl; [|done].
    destruct Hi. apply Hknown. by exists l.
Qed.

(** ** The two scans of [node_inputs] *)

Lemma get_name_Some σ l n :
  heap σ !! l = Some n → get_name l σ = Return (ProcessorNode.name n, σ).
Proof. unfold get_name. by intros ->. Qed.

Lemma nodes_contains_eq σ k :
  nodes_contains k σ = Return (bool_decide (is_Some (nodes σ !! k)), σ).
Proof. done. Qed.

Lemma any_self_input σ name inputs locs :
  Forall2 (λ i l, ∃ n, heap σ !! l = Some n ∧ ProcessorNode.name n = i)
    inputs locs →
  any (λ n, bind (get_name n) (λ nm, ret (bool_decide (nm = name)))) locs σ
  = Return (bool_decide (name ∈ inputs), σ).
Proof.
  induction 1 as [|i l inputs locs (n & Hn & <-) _ IH]; cbn [any].
  { unfold ret. by rewrite bool_decide_eq_false_2 by by intros ?%elem_of_nil. }
  rewrite (bind_Return _ _ _ _ _
    (bind_Return _ _ _ _ _ (get_name_Some _ _ _ Hn))).
  unfold ret at 1.
  destruct (decide (ProcessorNode.name n = name)) as [Hname|Hname].
  - rewrite (bool_decide_eq_true_2 _ Hname). unfold ret.
    rewrite bool_decide_eq_true_2; [done|].
    rewrite Hname. apply list_elem_of_here.
  - rewrite (bool_decide_eq_false_2 _ Hname), IH. do 2 f_equal.
    apply bool_decide_ext. rewrite elem_of_cons. intuition congruence.
Qed.

Lemma any_missing σ inputs locs :
  Forall2 (λ i l, ∃ n, heap σ !! l = Some n ∧ ProcessorNode.name n = i ∧
                       is_Some (nodes σ !! i)) inputs locs →
  any (λ n, bind (get_name n)
              (λ nm, bind (nodes_contains nm) (λ b, ret (negb b)))) locs σ
  = Return (false, σ).
Proof.
  induction 1 as [|i l inputs locs (n & Hn & <- & Hin) _ IH]; cbn [any].
  { done. }
  rewrite (bind_Return _ _ _ _ _
    (bind_Return _ _ _ _ _ (get_name_Some _ _ _ Hn))).
  by rewrite bool_decide_eq_true_2.
Qed.

(** ** Objects only gain children *)

Lemma same_object_refl n : same_object n n.
Proof. by repeat split. Qed.

Lemma same_object_trans n1 n2 n3 :
  same_object n1 n2 → same_object n2 n3 → same_object n1 n3.
Proof.
  intros (?&?&?&?) (?&?&?&?). repeat split; try congruence. auto.
Qed.

Lemma same_object_append c n :
  same_object n (ProcessorNode.children_append c n).
Proof.
  repeat split; try done. intros x Hx. cbn. apply elem_of_app. by left.
Qed.

Lemma heap_grows_refl h : heap_grows h h.
Proof. split; [done|]. intros l n Hn. exists n. auto using same_object_refl. Qed.

Lemma heap_grows_trans h1 h2 h3 :
  heap_grows h1 h2 → heap_grows h2 h3 → heap_grows h1 h3.
Proof.
  intros [Hlen12 H12] [Hlen23 H23]. split; [congruence|].
  intros l n1 Hn1. destruct (H12 _ _ Hn1) as (n2 & Hn2 & Hs12).
  destruct (H23 _ _ Hn2) as (n3 & Hn3 & Hs23).
  exists n3. eauto using same_object_trans.
Qed.

Lemma heap_grows_append h l n c :
  h !! l = Some n →
  heap_grows h (<[l := ProcessorNode.children_append c n]> h).
Proof.
  intros Hn. split; [by rewrite length_insert|].
  intros l' n' Hn'. destruct (decide (l = l')) as [<-|Hne].
  - exists (ProcessorNode.children_append c n).
    rewrite list_lookup_insert_eq by by eapply lookup_lt_Some.
    split; [done|]. replace n' with n by congruence.
    apply same_object_append.
  - exists n'. rewrite list_lookup_insert_ne by done.
    auto using same_object_refl.
Qed.

(** ** The loop that links a node to its parents *)

Lemma append_child_Some σ l c n :
  heap σ !! l = Some n →
  append_child l c σ =
  Return (tt, mkState (nodes σ)
                (<[l := ProcessorNode.children_append c n]> (heap σ))).
Proof. unfold append_child. by intros ->. Qed.

Lemma link_spec c inputs σ :
  (∀ i, i ∈ inputs → ∃ l, nodes σ !! i = Some l ∧ l < length (heap σ)) →
  ∃ h',
    for_each (λ i, bind (nodes_getitem i) (λ p, append_child p c)) inputs σ
    = Return (tt, mkState (nodes σ) h') ∧
    heap_grows (heap σ) h' ∧
    ∀ i, i ∈ inputs →
      ∃ lp np, nodes σ !! i = Some lp ∧ h' !! lp = Some np ∧
               c ∈ ProcessorNode.children np.
Proof.
  revert σ. induction inputs as [|i inputs IH]; intros σ Hin; cbn [for_each].
  { exists (heap σ). split; [by destruct σ|]. split; [apply heap_grows_refl|].
    by intros ? ?%elem_of_nil. }
  destruct (Hin i) as (l & Hl & Hlt); [apply list_elem_of_here|].
  destruct (lookup_lt_is_Some_2 _ _ Hlt) as [n Hn].
  pose (σ1 := mkState (nodes σ)
                (<[l := ProcessorNode.children_append c n]> (heap σ))).
  assert (Hstep : bind (nodes_getitem i) (λ p, append_child p c) σ
                  = Return (tt, σ1)).
  { rewrite (bind_Return _ _ _ _ _ (nodes_getitem_Some _ _ _ Hl)).
    by apply append_child_Some. }
  rewrite (bind_Return _ _ _ _ _ Hstep).
  destruct (IH σ1) as (h' & Hrun & Hgrow & Hedge).
  { intros j Hj. destruct (Hin j) as (lj & Hlj & Hltj);
      [by apply list_elem_of_further|].
    exists lj. split; [done|]. cbn. by rewrite length_insert. }
  exists h'. split; [done|]. split.
  { eapply heap_grows_trans; [apply (heap_grows_append _ _ _ c Hn)|done]. }
  intros j [->|Hj]%elem_of_cons; [|by apply Hedge].
  destruct Hgrow as [_ Hgrow].
  destruct (Hgrow l (ProcessorNode.children_append c n))
    as (n' & Hn' & _ & _ & _ & Hsub).
  { cbn. apply list_lookup_insert_eq. by eapply lookup_lt_Some. }
  exists l, n'. repeat split; [done..|]. apply Hsub. cbn.
  apply elem_of_app. right. apply list_elem_of_here.
Qed.

(** ** [_add_node] follows [check] *)

Lemma _add_node_spec σ known name c inputs :
  (∀ k, k ∈ known ↔ is_Some (nodes σ !! k)) →
  (∀ k l, nodes σ !! k = Some l →
     ∃ n, heap σ !! l = Some n ∧ ProcessorNode.name n = k) →
  (∃ n, heap σ !! c = Some n ∧ ProcessorNode.name n = name) →
  match check known name inputs with
  | Some e => _add_node name c inputs σ = Raise e
  | None =>
      ∃ h', _add_node name c inputs σ
            = Return (tt, mkState (<[name := c]> (nodes σ)) h') ∧
            heap_grows (heap σ) h' ∧
            ∀ i, i ∈ inputs →
              ∃ lp np, <[name := c]> (nodes σ) !! i = Some lp ∧
                       h' !! lp = Some np ∧ c ∈ ProcessorNode.children np
  end.
Proof.
  intros Hknown Hnamed Hnew. unfold check, _add_node.
  rewrite (bind_Return _ _ _ _ _ (nodes_contains_eq _ _)).
  destruct (decide (name ∈ known)) as [Hdup|Hfresh].
  { rewrite bool_decide_eq_true_2 by by apply Hknown. done. }
  rewrite bool_decide_eq_false_2 by by rewrite <-Hknown.
  set (σ2 := mkState (<[name := c]> (nodes σ)) (heap σ)).
  assert (Hset : nodes_setitem name c σ = Return (tt, σ2)) by done.
  rewrite (bind_Return _ _ _ _ _ Hset).
  assert (Hknown2 : ∀ k, k ∈ name :: known ↔ is_Some (nodes σ2 !! k)).
  { intros k. cbn. rewrite elem_of_cons, lookup_insert, Hknown.
    case_decide as Hk; [subst k|]; split; eauto.
    - intros [?|?]; [congruence|done]. }
  assert (Hnamed2 : ∀ k l, nodes σ2 !! k = Some l →
            ∃ n, heap σ2 !! l = Some n ∧ ProcessorNode.name n = k).
  { intros k l. cbn. rewrite lookup_insert.
    case_decide; subst; [by intros [= <-]|by apply Hnamed]. }
  pose proof (getitems_spec σ2 _ inputs Hknown2) as Hget.
  destruct (first_unknown (name :: known) inputs) as [i|].
  { by rewrite (bind_Raise _ _ _ _ Hget). }
  destruct Hget as (locs & Hget & Hlocs).
  rewrite (bind_Return _ _ _ _ _ Hget).
  assert (Hobjs : Forall2 (λ i l, ∃ n, heap σ2 !! l = Some n ∧
                            ProcessorNode.name n = i) inputs locs).
  { eapply Forall2_impl; [exact Hlocs|]. cbn beta. eauto. }
  rewrite (bind_Return _ _ _ _ _ (any_self_input σ2 name inputs locs Hobjs)).
  destruct (decide (name ∈ inputs)) as [Hself|Hnoself].
  { by rewrite bool_decide_eq_true_2. }
  rewrite bool_decide_eq_false_2 by done.
  assert (Hkeys : Forall2 (λ i l, ∃ n, heap σ2 !! l = Some n ∧
                            ProcessorNode.name n = i ∧
                            is_Some (nodes σ2 !! i)) inputs locs).
  { eapply Forall2_impl; [exact Hlocs|]. cbn beta. intros i l Hl.
    destruct (Hnamed2 _ _ Hl) as (n & ? & ?). exists n. by rewrite Hl. }
  rewrite (bind_Return _ _ _ _ _ (any_missing σ2 inputs locs Hkeys)).
  destruct (link_spec c inputs σ2) as (h' & Hrun & Hgrow & Hedge).
  { intros i Hi. destruct (proj1 (Hknown2 i)) as [l Hl].
    { rewrite elem_of_cons. right.
      assert (Hall : Forall (λ i, i ∈ name :: known) inputs).
      { apply Forall_forall. intros j Hj.
        destruct (proj1 (list_elem_of_lookup _ _) Hj) as [ix Hix].
        destruct (Forall2_lookup_l _ _ _ _ _ Hlocs Hix) as (l & _ & Hl).
        apply Hknown2. by exists l. }
      rewrite Forall_forall in Hall. specialize (Hall _ Hi).
      apply elem_of_cons in Hall as [->|?]; done. }
    exists l. split; [done|]. destruct (Hnamed2 _ _ Hl) as (n & Hn & _).
    by eapply lookup_lt_Some. }
  exists h'. by rewrite Hrun.
Qed.

(** ** One instruction *)

Lemma inv_known done σ k :
  inv done σ → k ∈ (dname <$> done) ↔ is_Some (nodes σ !! k).
Proof.
  intros Hinv. rewrite list_elem_of_lookup. unfold is_Some.
  split; intros [l Hl]; exists l; by apply (inv_key _ _ Hinv).
Qed.

Lemma inv_named done σ k l :
  inv done σ → nodes σ !! k = Some l →
  ∃ n, heap σ !! l = Some n ∧ ProcessorNode.name n = k.
Proof.
  intros Hinv Hl. apply (inv_key _ _ Hinv) in Hl.
  rewrite list_lookup_fmap in Hl.
  destruct (done !! l) as [d|] eqn:Hd; [|done]. injection Hl as <-.
  destruct (inv_obj _ _ Hinv _ _ Hd) as (n & ? & ? & _). eauto.
Qed.

Lemma inv_empty : inv [] (mkState ∅ []).
Proof.
  split; cbn.
  - done.
  - intros l d. by rewrite lookup_nil.
  - intros k l. by rewrite lookup_empty, lookup_nil.
  - intros j d p. by rewrite lookup_nil.
Qed.

Lemma call_spec done σ d :
  inv done σ →
  match verdict (dname <$> done) d with
  | Some e => call d σ = Raise e
  | None =>
      ∃ σ', call d σ = Return (length done, σ') ∧ inv (done ++ [d]) σ'
  end.
Proof.
  intros Hinv. rewrite call_unfold. unfold verdict.
  set (n0 := ProcessorNode.__init__ (dname d) (dprocessor d)).
  set (σ1 := mkState (nodes σ) (heap σ ++ [n0])).
  pose proof (inv_len _ _ Hinv) as Hlen.
  pose proof (_add_node_spec σ1 (dname <$> done) (dname d) (length (heap σ))
                (dinputs d)) as Hadd.
  assert (Hnew : heap σ1 !! length (heap σ) = Some n0)
    by (cbn; by apply list_lookup_middle).
  lapply Hadd; [clear Hadd; intros Hadd|intros k; apply (inv_known _ _ _ Hinv)].
  lapply Hadd; [clear Hadd; intros Hadd|]; last first.
  { intros k l Hl. destruct (inv_named _ _ _ _ Hinv Hl) as (n & Hn & ?).
    exists n. split; [cbn; by apply lookup_app_l_Some|done]. }
  lapply Hadd; [clear Hadd; intros Hadd|by exists n0].
  destruct (check (dname <$> done) (dname d) (dinputs d)) as [e|] eqn:Hcheck.
  { by rewrite Hadd. }
  destruct Hadd as (h' & -> & [Hlen' Hgrow] & Hedge).
  exists (mkState (<[dname d := length (heap σ)]> (nodes σ)) h').
  split; [by rewrite Hlen|].
  assert (Hfresh : dname d ∉ dname <$> done).
  { unfold check in Hcheck. by case_decide. }
  assert (Hnone : nodes σ !! dname d = None).
  { apply eq_None_not_Some. by rewrite <-(inv_known _ _ _ Hinv). }
  assert (Hnames : length (dname <$> done) = length (heap σ))
    by by rewrite length_fmap.
  split; cbn [nodes heap].
  - rewrite Hlen'. cbn. rewrite !length_app. cbn. lia.
  - intros l d' [Hd'|[Hge Hd']]%lookup_app_Some.
    + destruct (inv_obj _ _ Hinv _ _ Hd') as (n & Hn & Hnm & Hpr & Hst).
      destruct (Hgrow l n) as (n' & Hn' & Hnm' & Hpr' & Hst' & _).
      { cbn. by apply lookup_app_l_Some. }
      exists n'. repeat split; congruence.
    + apply list_lookup_singleton_Some in Hd' as [Hl <-].
      assert (l = length (heap σ)) as -> by lia.
      destruct (Hgrow _ _ Hnew) as (n' & Hn' & Hnm' & Hpr' & Hst' & _).
      exists n'. by rewrite Hnm', Hpr', Hst'.
  - intros k l. rewrite fmap_app, lookup_insert. cbn [fmap list_fmap].
    case_decide as Hk.
    + subst k. split.
      * intros [= <-]. rewrite <-Hnames. by apply list_lookup_middle.
      * intros [Hl|[Hge Hl]]%lookup_app_Some.
        { destruct Hfresh. apply list_elem_of_lookup. eauto. }
        apply list_lookup_singleton_Some in Hl as [Hl _]. f_equal. lia.
    + rewrite (inv_key _ _ Hinv). split.
      * apply lookup_app_l_Some.
      * intros [Hl|[_ Hl]]%lookup_app_Some; [done|].
        apply list_lookup_singleton_Some in Hl as [_ ?]. congruence.
  - intros j d' p [Hd'|[Hge Hd']]%lookup_app_Some Hp.
    + destruct (inv_edge _ _ Hinv _ _ _ Hd' Hp) as (lp & np & Hlp & Hnp & Hj).
      destruct (Hgrow lp np) as (np' & Hnp' & _ & _ & _ & Hsub).
      { cbn. by apply lookup_app_l_Some. }
      exists lp, np'. split; [|by auto].
      rewrite lookup_insert_ne; [done|congruence].
    + apply list_lookup_singleton_Some in Hd' as [Hl <-].
      assert (j = length (heap σ)) as -> by lia. by apply Hedge.
Qed.

(** ** A list of instructions *)

Lemma validate_app known ds1 ds2 :
  validate known (ds1 ++ ds2) =
  match validate known ds1 with
  | Some e => Some e
  | None => validate (known ++ (dname <$> ds1)) ds2
  end.
Proof.
  revert known. induction ds1 as [|d ds1 IH]; intros known; cbn.
  { by rewrite app_nil_r. }
  destruct (verdict known d); [done|]. by rewrite IH, <-app_assoc.
Qed.

Lemma resolve_spec ds done σ :
  inv done σ →
  match validate (dname <$> done) ds with
  | Some e => list_comp call ds σ = Raise e
  | None =>
      ∃ σ', list_comp call ds σ
            = Return (seq (length done) (length ds), σ') ∧
            inv (done ++ ds) σ'
  end.
Proof.
  revert done σ. induction ds as [|d ds IH]; intros done σ Hinv;
    cbn [validate list_comp].
  { exists σ. by rewrite app_nil_r. }
  pose proof (call_spec done σ d Hinv) as Hcall.
  destruct (verdict (dname <$> done) d) as [e|].
  { by rewrite (bind_Raise _ _ _ _ Hcall). }
  destruct Hcall as (σ1 & Hcall & Hinv1).
  rewrite (bind_Return _ _ _ _ _ Hcall).
  specialize (IH _ _ Hinv1). rewrite fmap_app in IH. cbn [fmap list_fmap] in IH.
  destruct (validate ((dname <$> done) ++ [dname d]) ds) as [e|].
  { by rewrite (bind_Raise _ _ _ _ IH). }
  destruct IH as (σ' & Hrun & Hinv'). rewrite (bind_Return _ _ _ _ _ Hrun).
  exists σ'. split.
  - unfold ret. rewrite length_app. cbn. by rewrite Nat.add_1_r.
  - by rewrite <-app_assoc in Hinv'.
Qed.

(** ** [build] is decided by [validate] *)

Lemma build_spec (self : t) :
  match validate [] (instructions self) with
  | Some e => build self = Raise e
  | None =>
      ∃ σ,
        build self =
        Return
          (Topology.__init__ (nodes σ)
             (seq 0 (length (_sources self)))
             (seq (length (_sources self)) (length (_processors self)))
             (seq (length (_sources self) + length (_processors self))
                  (length (_sinks self)))
             (create <$> _state_stores self),
           heap σ) ∧
        inv (instructions self) σ
  end.
Proof.
  unfold instructions, build. rewrite !validate_app.
  pose proof (resolve_spec (_sources self) [] _ inv_empty) as H1.
  cbn [fmap list_fmap app length] in H1 |- *.
  destruct (validate [] (_sources self)) as [e|].
  { by rewrite (bind_Raise _ _ _ _ H1). }
  destruct H1 as (σ1 & Hrun1 & Hinv1). rewrite (bind_Return _ _ _ _ _ Hrun1).
  pose proof (resolve_spec (_processors self) _ _ Hinv1) as H2.
  cbn [app] in H2.
  destruct (validate (dname <$> _sources self) (_processors self)) as [e|].
  { by rewrite (bind_Raise _ _ _ _ H2). }
  destruct H2 as (σ2 & Hrun2 & Hinv2). rewrite (bind_Return _ _ _ _ _ Hrun2).
  pose proof (resolve_spec (_sinks self) _ _ Hinv2) as H3.
  rewrite fmap_app in H3.
  destruct (validate ((dname <$> _sources self) ++ (dname <$> _processors self))
              (_sinks self)) as [e|].
  { by rewrite (bind_Raise _ _ _ _ H3). }
  destruct H3 as (σ3 & Hrun3 & Hinv3). rewrite (bind_Return _ _ _ _ _ Hrun3).
  exists σ3. rewrite length_app in *. split; [done|].
  by rewrite <-app_assoc in Hinv3.
Qed.

(** ** What [validate] accepts *)

Lemma first_unknown_None known inputs :
  first_unknown known inputs = None ↔ ∀ i, i ∈ inputs → i ∈ known.
Proof.
  induction inputs as [|i inputs IH]; cbn.
  { split; [|done]. by intros _ ? ?%elem_of_nil. }
  case_decide as Hi.
  - rewrite IH. split.
    + intros Hall j [->|?]%elem_of_cons; auto.
    + intros Hall j Hj. apply Hall. by apply list_elem_of_further.
  - split; [done|]. intros Hall. destruct Hi. apply Hall, list_elem_of_here.
Qed.

Lemma first_unknown_Some known inputs i :
  first_unknown known inputs = Some i → i ∈ inputs ∧ i ∉ known.
Proof.
  induction inputs as [|j inputs IH]; cbn; [done|].
  case_decide as Hj.
  - intros [? ?]%IH. split; [by apply list_elem_of_further|done].
  - intros [= <-]. split; [apply list_elem_of_here|done].
Qed.

Lemma check_None known name inputs :
  check known name inputs = None ↔
  (name ∉ known) ∧ (∀ i, i ∈ inputs → i ∈ known).
Proof.
  unfold check. case_decide as Hdup.
  { split; [done|]. by intros [? _]. }
  destruct (first_unknown (name :: known) inputs) as [i|] eqn:Hfirst.
  { split; [done|]. intros [_ Hall].
    apply first_unknown_Some in Hfirst as [Hi Hni].
    destruct Hni. apply list_elem_of_further. auto. }
  rewrite first_unknown_None in Hfirst. case_decide as Hself.
  - split; [done|]. intros [_ Hall]. destruct Hdup. auto.
  - split; [|done]. intros _. split; [done|].
    intros i Hi. specialize (Hfirst i Hi).
    apply elem_of_cons in Hfirst as [->|?]; done.
Qed.

Lemma validate_None known ds :
  validate known ds = None ↔
  ∀ j d, ds !! j = Some d →
    (dname d ∉ known ++ take j (dname <$> ds)) ∧
    (∀ p, p ∈ dinputs d → p ∈ known ++ take j (dname <$> ds)).
Proof.
  revert known. induction ds as [|d ds IH]; intros known; cbn [validate].
  { split; [|done]. intros _ j d. by rewrite lookup_nil. }
  unfold verdict.
  destruct (check known (dname d) (dinputs d)) as [e|] eqn:Hcheck.
  - split; [done|]. intros Hall. destruct (Hall 0 d eq_refl) as [Hd Hp].
    cbn in Hd, Hp. rewrite app_nil_r in Hd, Hp.
    assert (check known (dname d) (dinputs d) = None)
      by by apply check_None.
    congruence.
  - apply check_None in Hcheck as [Hd Hp]. rewrite IH. split.
    + intros Hall [|j] d'; cbn.
      * intros [= <-]. by rewrite app_nil_r.
      * intros Hd'. rewrite cons_middle, app_assoc. by apply Hall.
    + intros Hall j d' Hd'. specialize (Hall (S j) d' Hd'). cbn in Hall.
      by rewrite cons_middle, app_assoc in Hall.
Qed.

Lemma validate_accepts ds :
  validate [] ds = None ↔ NoDup (dname <$> ds) ∧ parents_earlier ds.
Proof.
  rewrite validate_None. cbn [app]. split.
  - intros Hall. split.
    + apply NoDup_alt. intros i j k Hi Hj.
      destruct (Nat.lt_total i j) as [Hlt|[?|Hlt]]; [|done|]; exfalso.
      * rewrite list_lookup_fmap in Hj.
        destruct (ds !! j) as [d|] eqn:Hd; [|done]. injection Hj as <-.
        apply (proj1 (Hall j d Hd)), elem_of_take. eauto.
      * rewrite list_lookup_fmap in Hi.
        destruct (ds !! i) as [d|] eqn:Hd; [|done]. injection Hi as <-.
        apply (proj1 (Hall i d Hd)), elem_of_take. eauto.
    + intros j d p Hd Hp.
      destruct (proj1 (elem_of_take _ _ _) (proj2 (Hall j d Hd) p Hp))
        as (i & ? & ?). eauto.
  - intros [Hnodup Hearlier] j d Hd. split.
    + intros (i & Hi & Hlt)%elem_of_take.
      assert (i = j); [|lia].
      eapply NoDup_lookup; [done..|]. by rewrite list_lookup_fmap, Hd.
    + intros p Hp. apply elem_of_take.
      destruct (Hearlier j d p Hd Hp) as (i & ? & ?). eauto.
Qed.

Lemma validate_rejects known ds e :
  validate known ds = Some e →
  ∃ j d, ds !! j = Some d ∧
         check (known ++ take j (dname <$> ds)) (dname d) (dinputs d) = Some e.
Proof.
  revert known. induction ds as [|d ds IH]; intros known; cbn [validate];
    [done|].
  unfold verdict.
  destruct (check known (dname d) (dinputs d)) as [e'|] eqn:Hcheck.
  - intros [= ->]. exists 0, d. cbn. by rewrite app_nil_r.
  - intros (j & d' & Hd' & He)%IH. exists (S j), d'. cbn.
    by rewrite cons_middle, app_assoc.
Qed.

(** ** When [build] returns *)

Lemma build_returns_iff (self : t) :
  returns (build self) ↔
  NoDup (dname <$> instructions self) ∧ parents_earlier (instructions self).
Proof.
  rewrite <-validate_accepts. pose proof (build_spec self) as Hspec.
  destruct (validate [] (instructions self)) as [e|].
  - rewrite Hspec. by split.
  - destruct Hspec as (σ & -> & _). by split.
Qed.

Lemma build_raises_kinds (self : t) e :
  build self = Raise e →
  (∃ name, name ∈ (dname <$> instructions self) ∧
     e = KafkaStreamsError
           ["A processor with the name '" +:+ name
              +:+ "' already added to this topology"]) ∨
  (∃ j d k, instructions self !! j = Some d ∧ k ∈ dinputs d ∧
     k ≠ dname d ∧ (k ∉ take j (dname <$> instructions self)) ∧
     e = KeyError k) ∨
  (∃ d, d ∈ instructions self ∧ dname d ∈ dinputs d ∧
     e = KafkaStreamsError ["A processor cannot have itself as an input"]).
Proof.
  intros Hbuild. pose proof (build_spec self) as Hspec.
  destruct (validate [] (instructions self)) as [e'|] eqn:Hval.
  2: { destruct Hspec as (σ & Hret & _). congruence. }
  assert (e' = e) as -> by congruence.
  apply validate_rejects in Hval as (j & d & Hd & Hcheck).
  assert (Hin : d ∈ instructions self) by (apply list_elem_of_lookup; eauto).
  unfold check in Hcheck. cbn [app] in Hcheck. case_decide as Hdup.
  { left. exists (dname d). split; [|congruence].
    apply list_elem_of_fmap. eauto. }
  destruct (first_unknown _ _) as [k|] eqn:Hfirst.
  { right; left. apply first_unknown_Some in Hfirst as [Hk Hnk].
    exists j, d, k. rewrite not_elem_of_cons in Hnk. destruct Hnk.
    repeat split; [done..|congruence]. }
  case_decide; [|done]. right; right. exists d. repeat split; [done..|].
  congruence.
Qed.

Lemma build_duplicate_never_returns (self : t) :
  ¬ NoDup (dname <$> instructions self) → ¬ returns (build self).
Proof. rewrite build_returns_iff. tauto. Qed.

Lemma build_self_input_never_returns (self : t) d :
  d ∈ instructions self → dname d ∈ dinputs d → ¬ returns (build self).
Proof.
  intros [j Hd]%list_elem_of_lookup Hself [Hnodup Hearlier]%build_returns_iff.
  destruct (Hearlier j d _ Hd Hself) as (i & Hlt & Hi).
  assert (i = j); [|lia].
  eapply NoDup_lookup; [done..|]. by rewrite list_lookup_fmap, Hd.
Qed.

Lemma build_unregistered_parent_never_returns (self : t) d p :
  d ∈ instructions self → p ∈ dinputs d →
  p ∉ (dname <$> instructions self) → ¬ returns (build self).
Proof.
  intros [j Hd]%list_elem_of_lookup Hp Hnew [_ Hearlier]%build_returns_iff.
  destruct (Hearlier j d p Hd Hp) as (i & _ & Hi).
  apply Hnew, list_elem_of_lookup. eauto.
Qed.

(** ** Registration sequences *)

Lemma run_registers ds (self self' : t) :
  run ds self = (Return tt, self') →
  _sources self' = _sources self ++ filter is_source ds ∧
  _processors self' = _processors self ++ filter is_processor ds ∧
  _sinks self' = _sinks self ++ filter is_sink ds ∧
  _state_stores self' = _state_stores self.
Proof.
  revert self. induction ds as [|d ds IH]; intros self; cbn [run].
  { intros [= <-]. by rewrite !app_nil_r. }
  destruct d as [name topics_|name pt [|p parents]|name topic parents];
    cbn [register source processor sink]; [|done|..];
    intros (-> & -> & -> & ->)%IH; cbn; by rewrite <-?app_assoc.
Qed.

Lemma run_instructions ds (self : t) :
  run ds __init__ = (Return tt, self) →
  instructions self = resolution_order ds ∧
  length (_sources self) = length (filter is_source ds) ∧
  length (_processors self) = length (filter is_processor ds) ∧
  length (_sinks self) = length (filter is_sink ds).
Proof.
  intros (Hs & Hp & Hk & _)%run_registers. unfold instructions.
  by rewrite Hs, Hp, Hk.
Qed.

Lemma resolution_order_perm ds : resolution_order ds ≡ₚ ds.
Proof.
  unfold resolution_order. induction ds as [|d ds IH]; [done|].
  rewrite !filter_cons. destruct d; cbn; repeat case_decide; try done; cbn.
  - by f_equiv.
  - by rewrite <-Permutation_middle, IH.
  - by rewrite app_assoc, <-Permutation_middle, <-app_assoc, IH.
Qed.

(** ** The built topology *)

(** C1: for every sequence of source, processor and sink registrations
    that all succeed, with pairwise distinct names and every declared
    parent registered earlier in the order sources, processors, sinks,
    [build] returns a topology.  Its node objects were made in that
    order (the [l]-th object belongs to the [l]-th instruction of the
    resolution order; the source, processor and sink lists hold the
    consecutive address ranges), and every declared parent-child pair
    is an edge: parent and child are in the name-to-node mapping and
    the child is in the parent's children list. *)
Theorem build_valid_registrations ds (self : t) :
  run ds __init__ = (Return tt, self) →
  NoDup (dname <$> ds) →
  parents_earlier (resolution_order ds) →
  ∃ topo h,
    build self = Return (topo, h) ∧
    Topology.sources topo = seq 0 (length (filter is_source ds)) ∧
    Topology.processors topo =
      seq (length (filter is_source ds)) (length (filter is_processor ds)) ∧
    Topology.sinks topo =
      seq (length (filter is_source ds) + length (filter is_processor ds))
          (length (filter is_sink ds)) ∧
    (∀ l d, resolution_order ds !! l = Some d →
       ∃ n, h !! l = Some n ∧ ProcessorNode.name n = dname d ∧
            ProcessorNode.processor n = dprocessor d) ∧
    (∀ d p, d ∈ ds → p ∈ dinputs d → Topology.edge topo h p (dname d)).
Proof.
  intros (Hinstr & Hns & Hnp & Hnk)%run_instructions Hnodup Hearlier.
  pose proof (build_spec self) as Hspec.
  rewrite (proj2 (validate_accepts (instructions self))) in Hspec; last first.
  { rewrite Hinstr. split; [|done]. by rewrite resolution_order_perm. }
  destruct Hspec as (σ & Hbuild & Hinv). rewrite Hinstr in Hinv.
  rewrite Hns, Hnp, Hnk in Hbuild.
  eexists _, (heap σ). split; [exact Hbuild|]. cbn.
  split; [done|]. split; [done|]. split; [done|]. split.
  - intros l d Hd. destruct (inv_obj _ _ Hinv _ _ Hd) as (n & ? & ? & ? & _).
    eauto.
  - intros d p Hd Hp. rewrite <-resolution_order_perm in Hd.
    apply list_elem_of_lookup in Hd as [j Hd].
    destruct (inv_edge _ _ Hinv _ _ _ Hd Hp) as (lp & np & Hlp & Hnp' & Hj).
    destruct (inv_named _ _ _ _ Hinv Hlp) as (np0 & Hnp0 & Hname).
    destruct (inv_obj _ _ Hinv _ _ Hd) as (nc & Hnc & Hcname & _).
    exists lp, np, j, nc. repeat split; cbn; try done.
    + congruence.
    + apply (inv_key _ _ Hinv). by rewrite list_lookup_fmap, Hd.
Qed.

Lemma build_objects (self : t) topo h :
  build self = Return (topo, h) →
  (∀ l n, h !! l = Some n →
     ProcessorNode.stores n = None ∧
     ∃ d, instructions self !! l = Some d ∧
          ProcessorNode.name n = dname d ∧
          ProcessorNode.processor n = dprocessor d) ∧
  Topology.state_stores topo = create <$> _state_stores self.
Proof.
  intros Hbuild. pose proof (build_spec self) as Hspec.
  destruct (validate [] (instructions self)) as [e|]; [congruence|].
  destruct Hspec as (σ & Hret & Hinv).
  rewrite Hret in Hbuild. injection Hbuild as <- <-. split; [|done].
  intros l n Hn.
  destruct (lookup_lt_is_Some_2 (instructions self) l) as [d Hd].
  { rewrite <-(inv_len _ _ Hinv). by eapply lookup_lt_Some. }
  destruct (inv_obj _ _ Hinv _ _ Hd) as (n' & Hn' & ? & ? & ?).
  assert (n' = n) as -> by congruence. eauto.
Qed.

(** C10: the attachment targets of [state_store] are ignored (the
    call is the same method whatever they are), and in every topology
    [build] returns no node object has a [stores] attribute, every
    node object carries only the name and processor of its
    instruction, and the store mapping of the topology holds exactly
    the instantiated factories. *)
Theorem state_store_targets_unused (self : t) topo h :
  build self = Return (topo, h) →
  (∀ store_name store args,
     state_store store_name store args = state_store store_name store []) ∧
  (∀ l n, h !! l = Some n →
     ProcessorNode.stores n = None ∧
     ∃ d, instructions self !! l = Some d ∧
          ProcessorNode.name n = dname d ∧
          ProcessorNode.processor n = dprocessor d) ∧
  Topology.state_stores topo = create <$> _state_stores self.
Proof. intros Hbuild. split; [done|]. by apply build_objects. Qed.

(** ** Registration methods *)

(** C5: [processor] called with no parent raises a
    [KafkaStreamsError] at the call, whatever the state of the builder
    and leaving it unchanged; called with at least one parent it
    returns and appends the deferred instruction. *)
Theorem processor_requires_parent (self : t) name processor_type :
  processor name processor_type [] self =
    (Raise (KafkaStreamsError
       ["Processor '%s' must have a minimum of 1 input"; name]), self) ∧
  ∀ p parents,
    ∃ self',
      processor name processor_type (p :: parents) self = (Return Self, self') ∧
      _processors self' =
        _processors self ++ [build_processor name processor_type (p :: parents)].
Proof. split; [done|]. intros p parents. by eexists. Qed.

Lemma state_store_fresh (self : t) store_name f args :
  _state_stores self !! store_name = None →
  state_store store_name (Some f) args self =
  (Return PyNone,
   mk (topics self) (_sources self) (_processors self) (_sinks self)
      (<[store_name := f]> (_state_stores self))).
Proof.
  intros Hfresh. unfold state_store. rewrite decide_False; [done|].
  rewrite Hfresh. by intros [? ?].
Qed.


(** C7 (the code departs from it): a factory that has no [name]
    attribute is registered under a new name by a first call, which
    returns; a second call with the same name then raises
    [AttributeError], not a [KafkaStreamsError], and leaves the
    builder as the first call left it. *)
Theorem state_store_duplicate_without_name (self : t) store_name f args :
  _state_stores self !! store_name = None →
  factory_name f = None →
  returns (fst (state_store store_name (Some f) args self)) ∧
  _state_stores (snd (state_store store_name (Some f) args self))
    !! store_name = Some f ∧
  ∀ args',
    state_store store_name (Some f) args'
      (snd (state_store store_name (Some f) args self))
    = (Raise (AttributeError "name"),
       snd (state_store store_name (Some f) args self)).
Proof.
  intros Hfresh Hname. rewrite (state_store_fresh _ _ _ _ Hfresh).
  cbn [fst snd _state_stores]. split; [done|].
  split; [apply lookup_insert_eq|]. intros args'. unfold state_store.
  cbn [_state_stores]. rewrite decide_True, Hname; [done|].
  by rewrite lookup_insert_eq.
Qed.

(** C9 (the code departs from it): [source], [sink] and a [processor]
    call with a parent return the builder, but [state_store] never
    does: when it returns, it returns [None]. *)
Theorem state_store_returns_None (self : t) :
  (∀ store_name store args,
     fst (state_store store_name store args self) ≠ Return Self) ∧
  (∀ store_name f args,
     fst (state_store store_name (Some f) args __init__) = Return PyNone) ∧
  (∀ name topics_, fst (source name topics_ self) = Return Self) ∧
  (∀ name topic parents, fst (sink name topic parents self) = Return Self) ∧
  (∀ name processor_type p parents,
     fst (processor name processor_type (p :: parents) self) = Return Self).
Proof.
  split; [|done]. intros store_name [f|] args; cbn; [|done].
  case_decide; [|done]. by destruct (factory_name f).
Qed.

(** C6 (the code departs from it): [sink] has no check on its parent
    list; with no parent it returns, and [build] then returns a
    topology. *)
Theorem sink_accepts_no_parent name topic :
  fst (sink name topic [] __init__) = Return Self ∧
  returns (build (snd (sink name topic [] __init__))).
Proof.
  split; [done|]. apply build_returns_iff. cbn. split.
  - apply NoDup_singleton.
  - intros [|j] d p; cbn; [|done].
    intros [= <-]. by intros ?%elem_of_nil.
Qed.

(** ** Failures of [build] *)

(** C2 (the code departs from it): a processor whose only parent was
    never registered makes [build] raise [KeyError], not a
    [KafkaStreamsError]. *)
Theorem missing_parent_raises_KeyError processor_type :
  build (snd (processor "proc" processor_type ["missing"] __init__))
  = Raise (KeyError "missing").
Proof. reflexivity. Qed.

(** C3 (the code departs from it): two registrations with the same
    name, the first with an unregistered parent: [build] raises
    [KeyError], not a [KafkaStreamsError]. *)
Theorem duplicate_name_raises_KeyError processor_type topic :
  build (snd (run [build_processor "p" processor_type ["missing"];
                   build_sink "p" topic ["p"]] __init__))
  = Raise (KeyError "missing").
Proof. reflexivity. Qed.

(** C4 (the code departs from it): a processor that lists its own
    name and an unregistered name as parents: [build] raises
    [KeyError], not a [KafkaStreamsError]. *)
Theorem self_input_raises_KeyError processor_type :
  build (snd (processor "proc" processor_type ["proc"; "missing"] __init__))
  = Raise (KeyError "missing").
Proof. reflexivity. Qed.
End BuildFacts.

(** * Facts about the processor context *)

Section ContextFacts.
Context `{Collaborators}.

Lemma get_store_returns (self : Context.t) name s :
  Context.get_store self name = Return s ↔
  ∃ node stores,
    Context.currentNode self = Some node ∧
    ProcessorNode.stores node = Some stores ∧ stores !! name = Some s.
Proof.
  unfold Context.get_store. split.
  - destruct (Context.currentNode self) as [node|]; [|done].
    destruct (ProcessorNode.stores node) as [stores|] eqn:Hstores; [|done].
    destruct (stores !! name) as [s'|] eqn:Hs; [|done].
    intros [= ->]. by exists node, stores.
  - intros (node & stores & -> & -> & ->). done.
Qed.

Lemma get_store_unbound name :
  Context.get_store Context.__init__ name =
  Raise (KafkaStreamsError ["Access of state from unknown node"]).
Proof. done. Qed.

Lemma get_store_not_found node stores name :
  ProcessorNode.stores node = Some stores → stores !! name = None →
  Context.get_store (Context.mk (Some node)) name =
  Raise (KafkaStreamsError
    ["Store " +:+ name +:+ " is not found in node "
       +:+ ProcessorNode.name node]).
Proof. unfold Context.get_store. cbn. by intros -> ->. Qed.

(** No store is reachable through a node [build] made: on a context
    bound to any node object of any built topology, [get_store]
    raises [AttributeError] for every name. *)
Lemma get_store_on_built_node (self : TopologyBuilder.t) topo h l node name :
  TopologyBuilder.build self = Return (topo, h) → h !! l = Some node →
  Context.get_store (Context.mk (Some node)) name =
  Raise (AttributeError "stores").
Proof.
  intros Hbuild Hnode.
  destruct (build_objects self topo h Hbuild) as [Hobj _].
  destruct (Hobj l node Hnode) as [Hnone _].
  unfold Context.get_store. cbn. by rewrite Hnone.
Qed.

(** C8 (the code departs from it): a context bound to a node object
    as [ProcessorNode] constructs it, which has no store attached,
    does not fail with the store-not-found error: reading the node's
    [stores] attribute raises [AttributeError]. *)
Theorem get_store_on_new_node node_name p name :
  Context.get_store (Context.mk (Some (ProcessorNode.__init__ node_name p))) name
  = Raise (AttributeError "stores").
Proof. reflexivity. Qed.
End ContextFacts.

(** * The example topology *)

Section Example.
Import Demo.
Import TopologyBuilder.

Lemma build_valid_registrations_witness :
  ∃ topo h,
    build Demo.builder = Return (topo, h) ∧
    Topology.edge topo h "src" "proc" ∧ Topology.edge topo h "proc" "snk".
Proof.
  destruct (build_valid_registrations Demo.registrations Demo.builder)
    as (topo & h & Hbuild & _ & _ & _ & _ & Hedge).
  - reflexivity.
  - apply (validate_accepts Demo.registrations). reflexivity.
  - apply (validate_accepts (resolution_order Demo.registrations)).
    reflexivity.
  - exists topo, h. split; [exact Hbuild|]. split.
    + apply (Hedge (@build_processor Demo.collaborators
                      "proc" "MyProc" ["src"]) "src");
        repeat constructor.
    + apply (Hedge (build_sink "snk" "topic-out" ["proc"]) "proc");
        repeat constructor.
Defined.

Lemma state_store_targets_unused_witness :
  ∃ topo h,
    build Demo.builder_with_store = Return (topo, h) ∧
    (∀ l n, h !! l = Some n → ProcessorNode.stores n = None) ∧
    Topology.state_stores topo = {[ "counts" := 7 ]}.
Proof.
  eexists _, _. split; [reflexivity|].
  destruct (state_store_targets_unused Demo.builder_with_store _ _ eq_refl)
    as (_ & Hobj & Hstores).
  split.
  - intros l n Hn. exact (proj1 (Hobj l n Hn)).
  - rewrite Hstores. reflexivity.
Defined.


Lemma state_store_duplicate_without_name_witness :
  _state_stores __init__ !! "counts" = None ∧
  fst (@state_store Demo.collaborators "counts" (Some (None, 7)) []
         (snd (@state_store Demo.collaborators "counts" (Some (None, 7)) []
                 __init__)))
  = Raise (AttributeError "name").
Proof.
  split; [reflexivity|].
  destruct (@state_store_duplicate_without_name Demo.collaborators __init__
              "counts" (None, 7) [] eq_refl eq_refl) as (_ & _ & Hagain).
  exact (f_equal fst (Hagain [])).
Defined.
End Example.

(** * More about the build phase *)

Section ChildrenFacts.
Context `{Collaborators}.
Import TopologyBuilder.

Implicit Types (σ : state) (d : deferred) (ds done : list deferred).
Implicit Types (known inputs : list string) (h : list ProcessorNode.t).

(** ** The read-only part of [_add_node] *)

Lemma getitems_state σ inputs locs σ' :
  list_comp nodes_getitem inputs σ = Return (locs, σ') → σ' = σ.
Proof.
  revert locs. induction inputs as [|i inputs IH]; intros locs; cbn [list_comp].
  { by intros [= _ <-]. }
  unfold bind at 1. unfold nodes_getitem at 1.
  destruct (nodes σ !! i) as [l|]; [|done]. unfold bind.
  destruct (list_comp nodes_getitem inputs σ) as [[locs' σ'']|e] eqn:Hrest;
    [|done].
  intros [= _ <-]. by eapply IH.
Qed.

Lemma any_state {A} (p : A → M bool) xs σ b σ' :
  (∀ x b0 σ0, p x σ = Return (b0, σ0) → σ0 = σ) →
  any p xs σ = Return (b, σ') → σ' = σ.
Proof.
  intros Hp. induction xs as [|x xs IH]; cbn [any].
  { by intros [= _ <-]. }
  unfold bind. destruct (p x σ) as [[b0 σ0]|e] eqn:Hx; [|done].
  apply Hp in Hx as ->. destruct b0; [by intros [= _ <-]|done].
Qed.

Lemma get_name_state l σ nm σ' :
  get_name l σ = Return (nm, σ') → σ' = σ.
Proof. unfold get_name. destruct (heap σ !! l); [by intros [= _ <-]|done]. Qed.

Lemma _add_node_link name c inputs σ u σ' :
  _add_node name c inputs σ = Return (u, σ') →
  for_each (λ i, bind (nodes_getitem i) (λ p, append_child p c)) inputs
    (mkState (<[name := c]> (nodes σ)) (heap σ)) = Return (u, σ').
Proof.
  unfold _add_node.
  rewrite (bind_Return _ _ _ _ _ (nodes_contains_eq _ _)).
  destruct (bool_decide _); [done|].
  set (σ2 := mkState (<[name := c]> (nodes σ)) (heap σ)).
  assert (Hset : nodes_setitem name c σ = Return (tt, σ2)) by done.
  rewrite (bind_Return _ _ _ _ _ Hset). unfold bind at 1.
  destruct (list_comp nodes_getitem inputs σ2) as [[locs σ3]|e] eqn:Hget;
    [|done].
  apply getitems_state in Hget as ->. unfold bind at 1.
  destruct (any _ locs σ2) as [[b1 σ3]|e] eqn:Hany1; [|done].
  apply any_state in Hany1 as ->; last first.
  { intros l b0 σ0. unfold bind.
    destruct (get_name l σ2) as [[nm σ4]|e] eqn:Hnm; [|done].
    apply get_name_state in Hnm as ->. by intros [= _ <-]. }
  destruct b1; [done|]. unfold bind at 1.
  destruct (any _ locs σ2) as [[b2 σ3]|e] eqn:Hany2; [|done].
  apply any_state in Hany2 as ->; last first.
  { intros l b0 σ0. unfold bind.
    destruct (get_name l σ2) as [[nm σ4]|e] eqn:Hnm; [|done].
    apply get_name_state in Hnm as ->. by intros [= _ <-]. }
  by destruct b2.
Qed.

(** ** The linking loop, exactly *)

Lemma link_exact c inputs σ :
  (∀ i, i ∈ inputs → ∃ l, nodes σ !! i = Some l ∧ l < length (heap σ)) →
  ∃ h',
    for_each (λ i, bind (nodes_getitem i) (λ p, append_child p c)) inputs σ
    = Return (tt, mkState (nodes σ) h') ∧
    length h' = length (heap σ) ∧
    ∀ l n, heap σ !! l = Some n →
      ∃ n', h' !! l = Some n' ∧
        ProcessorNode.children n' =
          ProcessorNode.children n ++
          replicate (length (filter (λ i, nodes σ !! i = Some l) inputs)) c.
Proof.
  revert σ. induction inputs as [|i inputs IH]; intros σ Hin; cbn [for_each].
  { exists (heap σ). split; [by destruct σ|]. split; [done|].
    intros l n Hn. exists n. split; [done|]. cbn. by rewrite app_nil_r. }
  destruct (Hin i) as (li & Hli & Hlt); [apply list_elem_of_here|].
  destruct (lookup_lt_is_Some_2 _ _ Hlt) as [ni Hni].
  pose (σ1 := mkState (nodes σ)
                (<[li := ProcessorNode.children_append c ni]> (heap σ))).
  assert (Hstep : bind (nodes_getitem i) (λ p, append_child p c) σ
                  = Return (tt, σ1)).
  { rewrite (bind_Return _ _ _ _ _ (nodes_getitem_Some _ _ _ Hli)).
    by apply append_child_Some. }
  rewrite (bind_Return _ _ _ _ _ Hstep).
  destruct (IH σ1) as (h' & Hrun & Hlen & Hexact).
  { intros j Hj. destruct (Hin j) as (lj & Hlj & Hltj);
      [by apply list_elem_of_further|].
    exists lj. split; [done|]. cbn. by rewrite length_insert. }
  exists h'. split; [done|]. split.
  { rewrite Hlen. cbn. by rewrite length_insert. }
  intros l n Hn. rewrite filter_cons. destruct (decide (li = l)) as [->|Hne].
  - destruct (Hexact l (ProcessorNode.children_append c n))
      as (n' & Hn' & Hch).
    { cbn. replace ni with n by congruence.
      apply list_lookup_insert_eq. by eapply lookup_lt_Some. }
    exists n'. split; [done|]. rewrite Hch. cbn [nodes σ1].
    rewrite decide_True by done. cbn. by rewrite <-app_assoc.
  - destruct (Hexact l n) as (n' & Hn' & Hch).
    { cbn. by rewrite list_lookup_insert_ne. }
    exists n'. split; [done|]. rewrite Hch. cbn [nodes σ1].
    rewrite decide_False; [done|]. congruence.
Qed.

(** ** [children_from] *)

Lemma children_from_app k ds1 ds2 name :
  children_from k (ds1 ++ ds2) name =
  children_from k ds1 name ++ children_from (k + length ds1) ds2 name.
Proof.
  revert k. induction ds1 as [|d ds1 IH]; intros k; cbn.
  { by rewrite Nat.add_0_r. }
  by rewrite IH, <-app_assoc, Nat.add_succ_r.
Qed.

Lemma occurrences_zero name inputs :
  name ∉ inputs → occurrences name inputs = 0.
Proof.
  intros Hnot. unfold occurrences.
  induction inputs as [|i inputs IH]; [done|].
  apply not_elem_of_cons in Hnot as [Hne Hnot].
  rewrite filter_cons_False by congruence. by apply IH.
Qed.

Lemma occurrences_pos name inputs :
  name ∈ inputs ↔ occurrences name inputs ≠ 0.
Proof.
  split.
  - intros Hin Hz. unfold occurrences in Hz. apply length_zero_iff_nil in Hz.
    by apply (filter_nil_not_elem_of _ _ name Hz).
  - intros Hnz. destruct (decide (name ∈ inputs)); [done|].
    by rewrite occurrences_zero in Hnz.
Qed.

Lemma elem_of_children_from k ds name c :
  c ∈ children_from k ds name ↔
  ∃ j d, c = k + j ∧ ds !! j = Some d ∧ name ∈ dinputs d.
Proof.
  revert k. induction ds as [|d ds IH]; intros k; cbn [children_from].
  { split; [by intros ?%elem_of_nil|]. by intros (j & d & _ & ? & _). }
  rewrite elem_of_app, elem_of_replicate, IH, <-occurrences_pos. split.
  - intros [[-> Hin]|(j & d' & -> & Hd' & Hin)].
    + exists 0, d. by rewrite Nat.add_0_r.
    + exists (S j), d'. split; [lia|done].
  - intros ([|j] & d' & -> & Hd' & Hin); cbn in Hd'.
    + left. injection Hd' as <-. by rewrite Nat.add_0_r.
    + right. exists j, d'. split; [lia|done].
Qed.

Lemma children_from_unlisted k ds name :
  (∀ d, d ∈ ds → name ∉ dinputs d) → children_from k ds name = [].
Proof.
  intros Hnot. destruct (children_from k ds name) as [|c cs] eqn:Hc; [done|].
  assert (Hin : c ∈ children_from k ds name)
    by (rewrite Hc; apply list_elem_of_here).
  apply elem_of_children_from in Hin as (j & d & _ & Hd & Hin).
  destruct (Hnot d); [|done]. apply list_elem_of_lookup. eauto.
Qed.

(** ** One instruction, exactly *)

Lemma children_exact_empty : children_exact [] (mkState ∅ []).
Proof. intros l d. by rewrite lookup_nil. Qed.

Lemma call_exact done σ d l σ' :
  inv done σ → children_exact done σ →
  call d σ = Return (l, σ') →
  inv (done ++ [d]) σ' ∧ children_exact (done ++ [d]) σ'.
Proof.
  intros Hinv Hch Hcall.
  pose proof (call_spec done σ d Hinv) as Hspec.
  destruct (verdict (dname <$> done) d) as [e|] eqn:Hv; [congruence|].
  destruct Hspec as (σ'' & Hcall' & Hinv').
  assert (σ'' = σ') as -> by congruence. split; [done|].
  apply check_None in Hv as [Hfresh Hall].
  pose proof (inv_len _ _ Hinv) as Hlen.
  assert (Hnone : nodes σ !! dname d = None).
  { apply eq_None_not_Some. by rewrite <-(inv_known _ _ _ Hinv). }
  assert (Hnoself : dname d ∉ dinputs d) by (intros ?; by apply Hfresh, Hall).
  rewrite call_unfold in Hcall.
  set (n0 := ProcessorNode.__init__ (dname d) (dprocessor d)) in Hcall.
  destruct (_add_node _ _ _ _) as [[u σa]|e] eqn:Hadd; [|done].
  assert (σa = σ') as -> by congruence. clear Hcall Hcall'.
  apply _add_node_link in Hadd. cbn [nodes heap] in Hadd.
  set (c := length (heap σ)) in *.
  set (σ2 := mkState (<[dname d := c]> (nodes σ)) (heap σ ++ [n0])) in Hadd.
  destruct (link_exact c (dinputs d) σ2) as (h' & Hrun & _ & Hexact).
  { intros i Hi. destruct (proj1 (inv_known _ _ i Hinv) (Hall i Hi)) as [li Hli].
    exists li. cbn. split.
    - rewrite lookup_insert_ne; [done|]. congruence.
    - destruct (inv_named _ _ _ _ Hinv Hli) as (n & Hn & _).
      rewrite length_app. apply lookup_lt_Some in Hn. lia. }
  rewrite Hrun in Hadd. injection Hadd as _ <-.
  intros l' d' [Hd'|[Hge Hd']]%lookup_app_Some; cbn [heap].
  - destruct (Hch l' d' Hd') as (n & Hn & Hcn).
    destruct (Hexact l' n) as (n' & Hn' & Hcn').
    { cbn. by apply lookup_app_l_Some. }
    exists n'. split; [done|].
    rewrite Hcn', Hcn, children_from_app. cbn [children_from].
    rewrite app_nil_r. cbn [Nat.add]. rewrite <-Hlen. fold c. do 2 f_equal.
    unfold occurrences. f_equal. apply list_filter_iff. intros i. cbn.
    assert (Hname : (dname <$> done) !! l' = Some (dname d'))
      by by rewrite list_lookup_fmap, Hd'.
    rewrite lookup_insert. case_decide as Hi.
    + subst i. split.
      * intros [= <-]. apply lookup_lt_Some in Hd'. unfold c in Hd'. lia.
      * intros Heq. destruct Hfresh. rewrite Heq.
        apply list_elem_of_lookup. eauto.
    + rewrite (inv_key _ _ Hinv). split; congruence.
  - apply list_lookup_singleton_Some in Hd' as [Hl <-].
    assert (l' = c) as -> by (unfold c; lia).
    destruct (Hexact c n0) as (n' & Hn' & Hcn').
    { cbn. by apply list_lookup_middle. }
    exists n'. split; [done|]. rewrite Hcn', children_from_app.
    rewrite children_from_unlisted; last first.
    { intros d0 [j Hd0]%list_elem_of_lookup Hin.
      destruct (inv_edge _ _ Hinv _ _ _ Hd0 Hin) as (lp & _ & Hlp & _).
      congruence. }
    cbn [children_from]. rewrite (occurrences_zero _ _ Hnoself). cbn.
    replace (filter _ (dinputs d)) with (@nil string); [done|].
    symmetry. rewrite <-(filter_nil (λ i, i = dname d)).
    erewrite list_filter_iff; [apply length_zero_iff_nil, occurrences_zero,
                                 Hnoself|].
    intros i. cbn. rewrite lookup_insert. case_decide as Hi; [naive_solver|].
    split; [|congruence]. intros Hc%(inv_key _ _ Hinv).
    apply lookup_lt_Some in Hc. rewrite length_fmap in Hc. unfold c in Hc. lia.
Qed.

(** ** A list of instructions and [build], exactly *)

Lemma resolve_exact ds done σ ls σ' :
  inv done σ → children_exact done σ →
  list_comp call ds σ = Return (ls, σ') →
  inv (done ++ ds) σ' ∧ children_exact (done ++ ds) σ'.
Proof.
  revert done σ ls. induction ds as [|d ds IH]; intros done σ ls Hinv Hch;
    cbn [list_comp].
  { intros [= _ <-]. by rewrite app_nil_r. }
  unfold bind at 1. destruct (call d σ) as [[l σ1]|e] eqn:Hcall; [|done].
  unfold bind at 1.
  destruct (list_comp call ds σ1) as [[ls' σ2]|e] eqn:Hrest; [|done].
  intros [= _ <-]. destruct (call_exact _ _ _ _ _ Hinv Hch Hcall) as [Hinv1 Hch1].
  rewrite cons_middle, app_assoc. by eapply IH.
Qed.

Lemma build_exact (self : t) topo h :
  build self = Return (topo, h) →
  inv (instructions self) (mkState (Topology.nodes topo) h) ∧
  children_exact (instructions self) (mkState (Topology.nodes topo) h).
Proof.
  unfold build, instructions. unfold bind at 1.
  destruct (list_comp call (_sources self) _) as [[ls1 σ1]|e] eqn:H1; [|done].
  unfold bind at 1.
  destruct (list_comp call (_processors self) σ1) as [[ls2 σ2]|e] eqn:H2;
    [|done].
  unfold bind at 1.
  destruct (list_comp call (_sinks self) σ2) as [[ls3 σ3]|e] eqn:H3; [|done].
  unfold ret. intros [= <- <-]. cbn [Topology.nodes].
  destruct (resolve_exact _ [] _ _ _ inv_empty children_exact_empty H1)
    as [Hi1 Hc1].
  destruct (resolve_exact _ _ _ _ _ Hi1 Hc1 H2) as [Hi2 Hc2].
  destruct (resolve_exact _ _ _ _ _ Hi2 Hc2 H3) as [Hi3 Hc3].
  rewrite <-app_assoc in Hi3, Hc3. by destruct σ3.
Qed.

(** ** The graph of a built topology *)

(** In a built topology the children list of every node is exactly
    the list of the addresses of the instructions that name it as a
    parent, in the order [build] resolved them and once per listing:
    a parent listed twice by one child holds that child twice. *)
Theorem build_children_exact (self : t) topo h :
  build self = Return (topo, h) →
  ∀ l d, instructions self !! l = Some d →
    ∃ n, h !! l = Some n ∧ ProcessorNode.name n = dname d ∧
         ProcessorNode.children n =
           children_from 0 (instructions self) (dname d).
Proof.
  intros [Hinv Hch]%build_exact l d Hd.
  destruct (Hch l d Hd) as (n & Hn & Hcn).
  destruct (inv_obj _ _ Hinv l d Hd) as (n' & Hn' & Hname & _).
  exists n. cbn in Hn, Hn'. split; [done|]. split; [congruence|done].
Qed.

(** In a built topology a node's children list holds the address [c]
    exactly when the instruction resolved [c]-th declared that node
    as a parent: no edge is missing and none was invented. *)
Theorem build_children_declared (self : t) topo h :
  build self = Return (topo, h) →
  ∀ l n c, h !! l = Some n →
    c ∈ ProcessorNode.children n ↔
    ∃ d, instructions self !! c = Some d ∧ ProcessorNode.name n ∈ dinputs d.
Proof.
  intros [Hinv Hch]%build_exact l n c Hn.
  destruct (lookup_lt_is_Some_2 (instructions self) l) as [d Hd].
  { rewrite <-(inv_len _ _ Hinv). by eapply lookup_lt_Some. }
  destruct (Hch l d Hd) as (n' & Hn' & Hcn).
  destruct (inv_obj _ _ Hinv l d Hd) as (n'' & Hn'' & Hname & _).
  cbn in Hn', Hn''. assert (n' = n) as -> by congruence.
  assert (n'' = n) as -> by congruence.
  rewrite Hcn, Hname, elem_of_children_from. split.
  - intros (j & d' & -> & ? & ?). eauto.
  - intros (d' & ? & ?). exists c, d'. split; [lia|done].
Qed.

(** In a built topology every child was made after its parent: the
    addresses in a node's children list are larger than the node's own
    address (and are addresses of the heap), so the graph has no
    cycle. *)
Theorem build_children_later (self : t) topo h :
  build self = Return (topo, h) →
  ∀ l n c, h !! l = Some n → c ∈ ProcessorNode.children n →
    l < c < length h.
Proof.
  intros Hbuild l n c Hn Hc.
  destruct (build_exact _ _ _ Hbuild) as [Hinv Hch].
  assert (Hret : returns (build self)) by by rewrite Hbuild.
  apply build_returns_iff in Hret as [Hnodup Hearlier].
  destruct (lookup_lt_is_Some_2 (instructions self) l) as [d Hd].
  { rewrite <-(inv_len _ _ Hinv). by eapply lookup_lt_Some. }
  destruct (Hch l d Hd) as (n' & Hn' & Hcn).
  destruct (inv_obj _ _ Hinv l d Hd) as (n'' & Hn'' & Hname & _).
  cbn in Hn', Hn''. assert (n' = n) as -> by congruence.
  rewrite Hcn in Hc.
  apply elem_of_children_from in Hc as (j & dc & -> & Hdc & Hin).
  cbn [Nat.add]. split.
  - destruct (Hearlier j dc _ Hdc Hin) as (i & Hlt & Hi).
    assert (i = l); [|lia].
    eapply NoDup_lookup; [done..|]. by rewrite list_lookup_fmap, Hd.
  - pose proof (inv_len _ _ Hinv) as Hlen. cbn in Hlen. rewrite Hlen.
    by eapply lookup_lt_Some.
Qed.

(** In a built topology the name-to-node mapping has exactly the
    registered names: a name is mapped to an address exactly when the
    instruction resolved at that position has that name, the object at
    the address carries the name, and the heap has one object per
    instruction. *)
Theorem build_nodes_exact (self : t) topo h :
  build self = Return (topo, h) →
  length h = length (instructions self) ∧
  ∀ k l,
    Topology.nodes topo !! k = Some l ↔
    ∃ d n, instructions self !! l = Some d ∧ dname d = k ∧
           h !! l = Some n ∧ ProcessorNode.name n = k.
Proof.
  intros [Hinv _]%build_exact. split; [apply (inv_len _ _ Hinv)|].
  intros k l. rewrite (inv_key _ _ Hinv k l), list_lookup_fmap. split.
  - destruct (instructions self !! l) as [d|] eqn:Hd; [|done].
    intros [= <-]. destruct (inv_obj _ _ Hinv l d Hd) as (n & Hn & Hname & _).
    by exists d, n.
  - intros (d & n & -> & <- & _). done.
Qed.
End ChildrenFacts.

(** * Which exception [build] raises *)

Section FailureFacts.
Context `{Collaborators}.
Import TopologyBuilder.

Implicit Types (d : deferred) (ds : list deferred).
Implicit Types (known inputs : list string).

Lemma build_first_failure (self : t) j d e :
  instructions self !! j = Some d →
  NoDup (dname <$> take j (instructions self)) →
  parents_earlier (take j (instructions self)) →
  check (dname <$> take j (instructions self)) (dname d) (dinputs d) = Some e →
  build self = Raise e.
Proof.
  intros Hd Hnodup Hearlier Hcheck.
  assert (Hpre : validate [] (take j (instructions self)) = None)
    by by apply validate_accepts.
  pose proof (build_spec self) as Hspec.
  assert (Hval : validate [] (instructions self) = Some e).
  { set (pre := take j (instructions self)) in *.
    rewrite <-(take_drop_middle (instructions self) j d Hd). fold pre.
    rewrite validate_app, Hpre. cbn. unfold verdict. by rewrite Hcheck. }
  by rewrite Hval in Hspec.
Qed.

Lemma first_unknown_app known ps k ps' :
  (∀ p, p ∈ ps → p ∈ known) → k ∉ known →
  first_unknown known (ps ++ k :: ps') = Some k.
Proof.
  intros Hps Hk. induction ps as [|p ps IH]; cbn.
  { by rewrite decide_False. }
  rewrite decide_True by apply Hps, list_elem_of_here.
  apply IH. intros p' Hp'. by apply Hps, list_elem_of_further.
Qed.

(** When the instructions resolved before the [j]-th are valid and
    the [j]-th has the name of one of them, [build] raises the
    [KafkaStreamsError] that names the duplicate, whatever parents
    the [j]-th declares. *)
Theorem build_duplicate_error (self : t) j d :
  instructions self !! j = Some d →
  NoDup (dname <$> take j (instructions self)) →
  parents_earlier (take j (instructions self)) →
  dname d ∈ (dname <$> take j (instructions self)) →
  build self =
  Raise (KafkaStreamsError
    ["A processor with the name '" +:+ dname d
       +:+ "' already added to this topology"]).
Proof.
  intros Hd Hnodup Hearlier Hdup.
  apply (build_first_failure self j d); [done..|].
  unfold check. by rewrite decide_True.
Qed.

(** When the instructions resolved before the [j]-th are valid, the
    [j]-th has a new name, lists that name among its parents and all
    its other parents are resolved, [build] raises the self-input
    [KafkaStreamsError]. *)
Theorem build_self_input_error (self : t) j d :
  instructions self !! j = Some d →
  NoDup (dname <$> take j (instructions self)) →
  parents_earlier (take j (instructions self)) →
  dname d ∉ (dname <$> take j (instructions self)) →
  dname d ∈ dinputs d →
  (∀ p, p ∈ dinputs d →
     p = dname d ∨ p ∈ (dname <$> take j (instructions self))) →
  build self =
  Raise (KafkaStreamsError ["A processor cannot have itself as an input"]).
Proof.
  intros Hd Hnodup Hearlier Hfresh Hself Hall.
  apply (build_first_failure self j d); [done..|].
  unfold check. rewrite decide_False by done.
  rewrite (proj2 (first_unknown_None _ _)); [by rewrite decide_True|].
  intros p Hp. apply elem_of_cons. by apply Hall.
Qed.

(** When the instructions resolved before the [j]-th are valid, the
    [j]-th has a new name and [k] is the first of its parents that is
    neither its own name nor the name of an instruction resolved
    before it (never registered, or registered but resolved later),
    [build] raises [KeyError k]; a self input listed next to it is not
    reported. *)
Theorem build_unknown_parent_error (self : t) j d ps k ps' :
  instructions self !! j = Some d →
  NoDup (dname <$> take j (instructions self)) →
  parents_earlier (take j (instructions self)) →
  dname d ∉ (dname <$> take j (instructions self)) →
  dinputs d = ps ++ k :: ps' →
  (∀ p, p ∈ ps →
     p = dname d ∨ p ∈ (dname <$> take j (instructions self))) →
  k ≠ dname d →
  k ∉ (dname <$> take j (instructions self)) →
  build self = Raise (KeyError k).
Proof.
  intros Hd Hnodup Hearlier Hfresh Hinputs Hps Hk Hnew.
  apply (build_first_failure self j d); [done..|].
  unfold check. rewrite decide_False by done.
  rewrite Hinputs, first_unknown_app; [done| |].
  - intros p Hp. apply elem_of_cons. by apply Hps.
  - rewrite not_elem_of_cons. by split.
Qed.

(** [build] raises nothing but the duplicate-name error for a
    registered name, [KeyError] for a declared parent that is not the
    node's own name and was not resolved before it, and the self-input
    error: the third check of [_add_node] never fires, so its message
    is never built. *)
Theorem build_raises_only (self : t) e :
  build self = Raise e →
  (∃ name, name ∈ (dname <$> instructions self) ∧
     e = KafkaStreamsError
           ["A processor with the name '" +:+ name
              +:+ "' already added to this topology"]) ∨
  (∃ j d k, instructions self !! j = Some d ∧ k ∈ dinputs d ∧
     k ≠ dname d ∧ (k ∉ take j (dname <$> instructions self)) ∧
     e = KeyError k) ∨
  (∃ d, d ∈ instructions self ∧ dname d ∈ dinputs d ∧
     e = KafkaStreamsError ["A processor cannot have itself as an input"]).
Proof. apply build_raises_kinds. Qed.

(** [build] returns a topology exactly when the names of the
    instructions are pairwise distinct and every declared parent is
    the name of an instruction resolved earlier, in the order
    sources, processors, sinks. *)
Theorem build_returns_exactly (self : t) :
  returns (build self) ↔
  NoDup (dname <$> instructions self) ∧ parents_earlier (instructions self).
Proof. apply build_returns_iff. Qed.

(** A [state_store] call, whether it returns or raises and whatever
    its arguments, leaves the outcome of [build] as it was but for
    the store mapping: the same exception, or the same nodes, lists
    and heap. *)
Theorem state_store_keeps_graph (self : t) store_name store args :
  match build self,
        build (snd (state_store store_name store args self)) with
  | Return (topo1, h1), Return (topo2, h2) =>
      h1 = h2 ∧
      Topology.nodes topo1 = Topology.nodes topo2 ∧
      Topology.sources topo1 = Topology.sources topo2 ∧
      Topology.processors topo1 = Topology.processors topo2 ∧
      Topology.sinks topo1 = Topology.sinks topo2
  | Raise e1, Raise e2 => e1 = e2
  | _, _ => False
  end.
Proof.
  assert (Hlists :
    _sources (snd (state_store store_name store args self)) = _sources self ∧
    _processors (snd (state_store store_name store args self))
      = _processors self ∧
    _sinks (snd (state_store store_name store args self)) = _sinks self).
  { unfold state_store. destruct store as [f|]; [|done].
    case_decide; [|done]. by destruct (factory_name f). }
  destruct Hlists as (Hs & Hp & Hk). unfold build. rewrite Hs, Hp, Hk.
  destruct (bind _ _ _) as [[[[ls1 ls2] ls3] σ]|e]; done.
Qed.

(** Whatever the builder holds, the source, processor and sink lists
    of a built topology are consecutive runs of heap addresses, in
    this order and each as long as the builder's list of that kind:
    every node object is in exactly one of the three. *)
Theorem build_lists_partition (self : t) topo h :
  build self = Return (topo, h) →
  Topology.sources topo = seq 0 (length (_sources self)) ∧
  Topology.processors topo =
    seq (length (_sources self)) (length (_processors self)) ∧
  Topology.sinks topo =
    seq (length (_sources self) + length (_processors self))
        (length (_sinks self)) ∧
  Topology.sources topo ++ Topology.processors topo ++ Topology.sinks topo
    = seq 0 (length h).
Proof.
  intros Hbuild. pose proof (build_spec self) as Hspec.
  destruct (validate [] (instructions self)) as [e|]; [congruence|].
  destruct Hspec as (σ & Hret & Hinv). rewrite Hret in Hbuild.
  injection Hbuild as <- <-. cbn. repeat split.
  rewrite (inv_len _ _ Hinv). unfold instructions. rewrite !length_app.
  by rewrite !seq_app.
Qed.
End FailureFacts.

(** * Sequences of registration calls *)

Section RunFacts.
Context `{Collaborators}.
Import TopologyBuilder.

Implicit Types (d : deferred) (ds : list deferred).

Lemma register_accepted d (self : t) :
  accepted d → register d self = (Return Self, registered [d] self).
Proof.
  destruct d as [name topics_|name pt [|p parents]|name topic parents];
    [|done|..]; intros _; unfold registered; cbn;
    by rewrite ?app_nil_r.
Qed.

Lemma registered_cons d ds (self : t) :
  registered ds (registered [d] self) = registered (d :: ds) self.
Proof.
  unfold registered. cbn [topics _sources _processors _sinks _state_stores].
  rewrite !(filter_cons _ d ds), bind_cons.
  destruct d; cbn; repeat case_decide; try done; cbn;
    by rewrite ?app_nil_r, <-?app_assoc.
Qed.

Lemma run_accepted ds (self : t) :
  Forall (λ d, accepted d) ds →
  run ds self = (Return tt, registered ds self).
Proof.
  revert self. induction ds as [|d ds IH]; intros self Hall; cbn [run].
  { unfold registered. cbn. rewrite !app_nil_r. by destruct self. }
  apply Forall_cons in Hall as [Hd Hall].
  rewrite (register_accepted _ _ Hd), (IH _ Hall). by rewrite registered_cons.
Qed.

(** A sequence of registration calls in which every [processor] call
    has a parent runs to its end and leaves each instruction at the end
    of the list of its kind, in call order; [self.topics] has gained
    the topics of the sources, in call order, and nothing from the
    other calls; the store factories are untouched. *)
Theorem run_completes ds (self : t) :
  Forall (λ d, accepted d) ds →
  run ds self = (Return tt, registered ds self).
Proof. apply run_accepted. Qed.

(** A sequence of registration calls that raises stopped at a
    [processor] call without parents: the exception is that call's
    [KafkaStreamsError], and the builder holds the registrations made
    before it and none made after. *)
Theorem run_stops ds (self self' : t) e :
  run ds self = (Raise e, self') →
  ∃ ds1 name processor_type ds2,
    ds = ds1 ++ build_processor name processor_type [] :: ds2 ∧
    Forall (λ d, accepted d) ds1 ∧
    e = KafkaStreamsError
          ["Processor '%s' must have a minimum of 1 input"; name] ∧
    self' = registered ds1 self.
Proof.
  revert self. induction ds as [|d ds IH]; intros self; cbn [run]; [done|].
  destruct (decide (accepted d)) as [Hd|Hd].
  - rewrite (register_accepted _ _ Hd).
    intros (ds1 & name & pt & ds2 & -> & Hall & -> & ->)%IH.
    exists (d :: ds1), name, pt, ds2.
    split; [done|]. split; [by constructor|]. split; [done|].
    by rewrite registered_cons.
  - destruct d as [name topics_|name pt [|p parents]|name topic parents];
      try (by destruct Hd).
    cbn. intros [= <- <-]. exists [], name, pt, ds.
    split; [done|]. split; [constructor|]. split; [done|].
    unfold registered. cbn. rewrite !app_nil_r. by destruct self.
Qed.

Lemma filter_filter_disjoint (P Q : deferred → bool) ds :
  (∀ d, P d → Q d → False) → filter P (filter Q ds) = [].
Proof.
  intros Hdis. induction ds as [|d ds IH]; [done|].
  rewrite (filter_cons Q). case_decide as Hq; [|done].
  rewrite filter_cons_False; [done|]. intros Hp. by eapply Hdis.
Qed.

Lemma source_topics_no_source ds :
  (∀ d, d ∈ ds → ¬ is_source d) → ds ≫= source_topics = [].
Proof.
  induction ds as [|d ds IH]; intros Hno; [done|].
  rewrite bind_cons, IH; last first.
  { intros d' Hd'. by apply Hno, list_elem_of_further. }
  specialize (Hno d (list_elem_of_here _ _)). by destruct d.
Qed.

Lemma source_topics_filter ds :
  filter is_source ds ≫= source_topics = ds ≫= source_topics.
Proof.
  induction ds as [|d ds IH]; [done|].
  rewrite filter_cons, (bind_cons _ d ds), <-IH.
  destruct d; cbn; repeat case_decide; try done; by rewrite ?bind_cons.
Qed.

Lemma filter_kinds ds :
  filter is_source (resolution_order ds) = filter is_source ds ∧
  filter is_processor (resolution_order ds) = filter is_processor ds ∧
  filter is_sink (resolution_order ds) = filter is_sink ds ∧
  resolution_order ds ≫= source_topics = ds ≫= source_topics.
Proof.
  unfold resolution_order. rewrite !filter_app, !bind_app.
  rewrite !(list_filter_filter_l _ _ _ (λ _ Hd, Hd)).
  rewrite (filter_filter_disjoint is_source is_processor) by by intros [].
  rewrite (filter_filter_disjoint is_source is_sink) by by intros [].
  rewrite (filter_filter_disjoint is_processor is_source) by by intros [].
  rewrite (filter_filter_disjoint is_processor is_sink) by by intros [].
  rewrite (filter_filter_disjoint is_sink is_source) by by intros [].
  rewrite (filter_filter_disjoint is_sink is_processor) by by intros [].
  rewrite source_topics_filter.
  rewrite (source_topics_no_source (filter is_processor ds)); last first.
  { intros d [Hd _]%list_elem_of_filter. destruct d; cbn in *; tauto. }
  rewrite (source_topics_no_source (filter is_sink ds)); last first.
  { intros d [Hd _]%list_elem_of_filter. destruct d; cbn in *; tauto. }
  by rewrite !app_nil_r.
Qed.

Lemma run_returns_accepted ds (self self' : t) :
  run ds self = (Return tt, self') → Forall (λ d, accepted d) ds.
Proof.
  revert self. induction ds as [|d ds IH]; intros self; cbn [run].
  { constructor. }
  destruct (decide (accepted d)) as [Hd|Hd].
  - rewrite (register_accepted _ _ Hd). intros Hrun. constructor; [done|].
    by eapply IH.
  - destruct d as [name topics_|name pt [|p parents]|name topic parents];
      try (by destruct Hd).
    done.
Qed.

(** The order of registration calls matters only within each kind: a
    sequence that runs to its end leaves the builder in the state the
    same calls leave when all sources are registered first, then all
    processors, then all sinks, so that [build] cannot tell the two
    apart. *)
Theorem run_order_across_kinds ds (self self' : t) :
  run ds self = (Return tt, self') →
  run (resolution_order ds) self = (Return tt, self').
Proof.
  intros Hrun. pose proof (run_returns_accepted _ _ _ Hrun) as Hall.
  rewrite (run_accepted _ _ Hall) in Hrun. injection Hrun as <-.
  rewrite run_accepted; last first.
  { by rewrite resolution_order_perm. }
  unfold registered. destruct (filter_kinds ds) as (-> & -> & -> & ->). done.
Qed.
End RunFacts.

(** * More of the example topologies *)

Section MoreExamples.
Import Demo.
Import TopologyBuilder.

Lemma build_children_exact_witness :
  ∃ topo h n,
    build Demo.diamond_builder = Return (topo, h) ∧
    h !! 0 = Some n ∧ ProcessorNode.name n = "a" ∧
    ProcessorNode.children n = [1; 1; 2].
Proof.
  eexists _, _.
  destruct (build_children_exact Demo.diamond_builder _ _ eq_refl 0 _ eq_refl)
    as (n & Hn & Hname & Hch).
  exists n. split; [reflexivity|]. split; [exact Hn|].
  split; [exact Hname|]. rewrite Hch. reflexivity.
Defined.

Lemma build_children_declared_witness :
  ∃ topo h n,
    build Demo.diamond_builder = Return (topo, h) ∧
    h !! 1 = Some n ∧ 2 ∈ ProcessorNode.children n.
Proof.
  eexists _, _, _. split; [reflexivity|]. split; [reflexivity|].
  apply (build_children_declared Demo.diamond_builder _ _ eq_refl 1 _ 2 eq_refl).
  eexists. split; [reflexivity|]. cbn. repeat constructor.
Defined.

Lemma build_children_later_witness :
  ∃ topo h,
    build Demo.diamond_builder = Return (topo, h) ∧ 0 < 2 < length h.
Proof.
  eexists _, _. split; [reflexivity|].
  eapply (build_children_later Demo.diamond_builder _ _ eq_refl 0 _ 2).
  - reflexivity.
  - cbn. repeat constructor.
Defined.

Lemma build_nodes_exact_witness :
  ∃ topo h,
    build Demo.diamond_builder = Return (topo, h) ∧
    length h = 3 ∧ Topology.nodes topo !! "out" = Some 2.
Proof.
  eexists _, _. split; [reflexivity|].
  destruct (build_nodes_exact Demo.diamond_builder _ _ eq_refl) as [Hlen Hkey].
  split; [exact Hlen|]. apply Hkey.
  eexists _, _. repeat split; reflexivity.
Defined.

Lemma build_duplicate_error_witness :
  build Demo.duplicate_builder =
  Raise (KafkaStreamsError
    ["A processor with the name 'a' already added to this topology"]).
Proof.
  destruct (proj1 (validate_accepts
                     (take 1 (instructions Demo.duplicate_builder))) eq_refl)
    as [Hnodup Hearlier].
  apply (build_duplicate_error Demo.duplicate_builder 1
           (build_sink "a" "t" ["a"]) eq_refl Hnodup Hearlier).
  cbn. repeat constructor.
Defined.

Lemma build_self_input_error_witness :
  build Demo.self_input_builder =
  Raise (KafkaStreamsError ["A processor cannot have itself as an input"]).
Proof.
  destruct (proj1 (validate_accepts
                     (take 1 (instructions Demo.self_input_builder))) eq_refl)
    as [Hnodup Hearlier].
  apply (build_self_input_error Demo.self_input_builder 1
           (@build_processor Demo.collaborators "p" "MyProc" ["s"; "p"])
           eq_refl Hnodup Hearlier).
  - apply (bool_decide_unpack _). exact I.
  - cbn. repeat constructor.
  - intros p Hp. destruct (decide (p = "p")) as [->|Hne]; [by left|].
    right. cbn in Hp |- *.
    apply elem_of_cons in Hp as [->|Hp]; [repeat constructor|].
    apply elem_of_cons in Hp as [->|Hp]; [done|]. by apply elem_of_nil in Hp.
Defined.

Lemma build_unknown_parent_error_witness :
  build Demo.forward_builder = Raise (KeyError "q").
Proof.
  destruct (proj1 (validate_accepts
                     (take 0 (instructions Demo.forward_builder))) eq_refl)
    as [Hnodup Hearlier].
  apply (build_unknown_parent_error Demo.forward_builder 0
           (@build_processor Demo.collaborators "p" "MyProc" ["p"; "q"])
           ["p"] "q" [] eq_refl Hnodup Hearlier).
  - apply (bool_decide_unpack _). exact I.
  - reflexivity.
  - intros p Hp. left. apply elem_of_cons in Hp as [->|Hp]; [done|].
    by apply elem_of_nil in Hp.
  - discriminate.
  - apply (bool_decide_unpack _). exact I.
Defined.

Lemma build_raises_only_witness :
  ∃ j d k, instructions Demo.forward_builder !! j = Some d ∧
           k ∈ dinputs d ∧ KeyError "q" = KeyError k.
Proof.
  destruct (build_raises_only Demo.forward_builder (KeyError "q") eq_refl)
    as [(name & _ & Hdup)|[(j & d & k & Hd & Hk & _ & _ & He)|(d & _ & _ & He)]].
  - discriminate Hdup.
  - exists j, d, k. split; [exact Hd|]. split; [exact Hk|exact He].
  - discriminate He.
Defined.

Lemma run_completes_witness :
  run Demo.diamond __init__ = (Return tt, registered Demo.diamond __init__) ∧
  topics (registered Demo.diamond __init__) = ["t1"; "t2"].
Proof.
  split; [|reflexivity]. apply run_completes.
  repeat constructor.
Defined.

Lemma run_stops_witness :
  ∃ ds1 name processor_type ds2,
    Demo.rejected = ds1 ++ build_processor name processor_type [] :: ds2 ∧
    snd (run Demo.rejected __init__) = registered ds1 __init__.
Proof.
  destruct (run_stops Demo.rejected __init__ _ _ eq_refl)
    as (ds1 & name & pt & ds2 & Hds & _ & _ & Hself).
  exists ds1, name, pt, ds2. split; [exact Hds|exact Hself].
Defined.

Lemma run_order_across_kinds_witness :
  run (resolution_order Demo.diamond) __init__
  = (Return tt, Demo.diamond_builder).
Proof. apply run_order_across_kinds. reflexivity. Defined.

Lemma get_store_on_built_node_witness :
  ∃ topo h node,
    build Demo.builder_with_store = Return (topo, h) ∧
    h !! 1 = Some node ∧ ProcessorNode.name node = "proc" ∧
    Topology.state_stores topo !! "counts" = Some 7 ∧
    Context.get_store (Context.mk (Some node)) "counts"
    = Raise (AttributeError "stores").
Proof.
  eexists _, _, _. split; [reflexivity|]. split; [reflexivity|].
  split; [reflexivity|]. split; [reflexivity|].
  exact (get_store_on_built_node Demo.builder_with_store _ _ 1 _ "counts"
           eq_refl eq_refl).
Defined.

Lemma build_lists_partition_witness :
  ∃ topo h,
    build Demo.diamond_builder = Return (topo, h) ∧
    Topology.sources topo = [0] ∧ Topology.processors topo = [1] ∧
    Topology.sinks topo = [2].
Proof.
  eexists _, _. split; [reflexivity|].
  destruct (build_lists_partition Demo.diamond_builder _ _ eq_refl)
    as (Hs & Hp & Hk & _).
  split; [exact Hs|]. split; [exact Hp|exact Hk].
Defined.
End MoreExamples.
